(** * AI-Therapist backend: bounded stores, dialogue handler and streaming bridge

    A shallow embedding of [backend/api/utils.py], [backend/api/session_store.py],
    [backend/api/views.py] (DialogueView) and [backend/api/consumers.py]
    (StreamConsumer), followed by the properties established about them.

    Conventions of the embedding.
    - Python [int] is [Z]; [len] is [Z.of_nat (length _)].
    - A [collections.deque] is a [list], oldest element first.
    - A reading of [time.time()] is an exact count of clock ticks, [hz] ticks
      to the second (any resolution); the rounding of float subtraction on
      timestamps is not modelled.  The one float product the code computes on
      integers, [len * 0.95], is modelled bit-exactly in IEEE binary64.
    - Every method body runs under the object's lock, so a method is one
      atomic state transformer.
    - A method that can raise returns [option], [None] being the raised
      case; code that threads the process state and catches exceptions runs
      in the monad [M], whose results are [inr value] or [inl message]. *)

From Stdlib Require Import ZArith SpecFloat String Ascii.
From stdpp Require Import gmap strings list sorting relations.

Local Open Scope Z_scope.

(* ================================================================== *)
(** * Runtime services the code takes from Python *)
(* ================================================================== *)

(** The clock resolution and the [str] builtins used for cache keys.
    [str_hash] is the builtin [hash] on strings (salted per process). *)
Class Runtime := {
  hz : Z;
  str_lower : string → string;
  str_strip : string → string;
  str_hash : string → Z;
  DEFAULT_LLM_PROVIDER : string;   (* settings.DEFAULT_LLM_PROVIDER *)
}.

(** [n] seconds, in clock ticks. *)
Definition seconds `{Runtime} (n : Z) : Z := n * hz.

(** [len(xs)]. *)
Definition len {A} (xs : list A) : Z := Z.of_nat (length xs).

(** [xs[i]] on a Python list: negative indices count from the end, an index
    out of range raises IndexError. *)
Definition py_index {A} (xs : list A) (i : Z) : option A :=
  if bool_decide (0 ≤ i) then xs !! Z.to_nat i
  else if bool_decide (0 ≤ len xs + i) then xs !! Z.to_nat (len xs + i)
  else None.

(** [deque(maxlen=n).append(x)]: the item is appended on the right, and when
    the deque has grown past [maxlen] one item is popped on the left. *)
Definition deque_append {A} (maxlen : nat) (q : list A) (x : A) : list A :=
  let q' := q ++ [x] in
  if bool_decide (maxlen < length q')%nat then tail q' else q'.

(** [sorted(xs)] on integers. *)
Definition sorted (xs : list Z) : list Z := merge_sort Z.le xs.

(* ------------------------------------------------------------------ *)
(** ** [int(n * 0.95)] in binary64 *)
(* ------------------------------------------------------------------ *)

Module Float64.
Definition prec : Z := 53.
Definition emax : Z := 1024.

(** [float(n)] for a Python int, rounded to nearest even. *)
Definition of_int (n : Z) : spec_float := binary_normalize prec emax n 0 false.

(** The literal [0.95]: the double 0x1.e666666666666p-1. *)
Definition lit_0_95 : spec_float := S754_finite false 8556839292003942 (-53).

Definition mul : spec_float → spec_float → spec_float := SFmul prec emax.

(** [int(x)]: truncation toward zero; OverflowError / ValueError on an
    infinity or a NaN. *)
Definition to_int (x : spec_float) : option Z :=
  match x with
  | S754_zero _ => Some 0
  | S754_finite s m e =>
      let a := if bool_decide (0 ≤ e) then Z.pos m * 2 ^ e
               else Z.pos m `div` 2 ^ (- e) in
      Some (if s then - a else a)
  | S754_infinity _ | S754_nan => None
  end.
End Float64.

(* ================================================================== *)
(** * MetricsTracker (utils.py) *)
(* ================================================================== *)

Module MetricsTracker.

Record t := mk {
  total_requests : Z;
  gemini_requests : Z;
  local_requests : Z;
  fallback_requests : Z;
  rate_limited_requests : Z;
  latencies : list Z;          (* deque(maxlen=1000) *)
}.

Definition maxlen : nat := 1000.

(** [__init__] *)
Definition init : t := mk 0 0 0 0 0 [].

(** [record_request(latency_ms, source)] *)
Definition record_request (st : t) (latency_ms : Z) (source : string) : t :=
  let total := total_requests st + 1 in
  let lats := deque_append maxlen (latencies st) latency_ms in
  if String.prefix "gemini" source then
    mk total (gemini_requests st + 1) (local_requests st)
       (fallback_requests st) (rate_limited_requests st) lats
  else if String.prefix "local" source then
    mk total (gemini_requests st) (local_requests st + 1)
       (fallback_requests st) (rate_limited_requests st) lats
  else
    mk total (gemini_requests st) (local_requests st)
       (fallback_requests st + 1) (rate_limited_requests st) lats.

(** [record_rate_limit()] *)
Definition record_rate_limit (st : t) : t :=
  mk (total_requests st) (gemini_requests st) (local_requests st)
     (fallback_requests st) (rate_limited_requests st + 1) (latencies st).

(** The dict returned by [get_metrics]. *)
Record snapshot := mk_snapshot {
  s_total_requests : Z;
  s_gemini_requests : Z;
  s_local_requests : Z;
  s_fallback_requests : Z;
  s_rate_limited_requests : Z;
  latency_median_ms : Z;
  latency_p95_ms : Z;
}.

(** [int(len(sorted_latencies) * 0.95)] *)
Definition p95_idx (n : Z) : option Z :=
  Float64.to_int (Float64.mul (Float64.of_int n) Float64.lit_0_95).

(** The two percentiles of [get_metrics]: [(median, p95)]. *)
Definition percentiles (lats : list Z) : option (Z * Z) :=
  match lats with
  | [] => Some (0, 0)
  | _ =>
      let sorted_latencies := sorted lats in
      median ← py_index sorted_latencies (len sorted_latencies `div` 2);
      p95_idx ← p95_idx (len sorted_latencies);
      p95 ← py_index sorted_latencies
               (Z.min p95_idx (len sorted_latencies - 1));
      Some (median, p95)
  end.

(** [get_metrics()]: the tracker after the call, and the snapshot.
    [latencies = list(self.latencies)] and [sorted(...)] build new lists. *)
Definition get_metrics (st : t) : option (t * snapshot) :=
  '(median, p95) ← percentiles (latencies st);
  Some (st, mk_snapshot (total_requests st) (gemini_requests st)
              (local_requests st) (fallback_requests st)
              (rate_limited_requests st) median p95).

(** The operations a client of the tracker can issue. *)
Inductive op :=
| RecordRequest (latency_ms : Z) (source : string)
| RecordRateLimit
| GetMetrics.

Definition step (st : t) (o : op) : t :=
  match o with
  | RecordRequest l s => record_request st l s
  | RecordRateLimit => record_rate_limit st
  | GetMetrics => match get_metrics st with Some (st', _) => st' | None => st end
  end.

Definition run (st : t) (ops : list op) : t := foldl step st ops.

(** The middle element the specification describes: the lower of the two
    middle elements when the count is even. *)
Definition lower_middle (xs : list Z) : option Z :=
  py_index (sorted xs) ((len xs - 1) `div` 2).

(** The three classified counters, as a triple. *)
Definition classified (st : t) : Z * Z * Z :=
  (gemini_requests st, local_requests st, fallback_requests st).

(** What holds of the counters after every step. *)
Definition counters_ok (st : t) : Prop :=
  total_requests st = gemini_requests st + local_requests st + fallback_requests st
  ∧ 0 ≤ total_requests st ∧ 0 ≤ gemini_requests st ∧ 0 ≤ local_requests st
  ∧ 0 ≤ fallback_requests st ∧ 0 ≤ rate_limited_requests st.

(** Every counter of [a] is at most the same counter of [b]. *)
Definition counters_le (a b : t) : Prop :=
  total_requests a ≤ total_requests b
  ∧ gemini_requests a ≤ gemini_requests b
  ∧ local_requests a ≤ local_requests b
  ∧ fallback_requests a ≤ fallback_requests b
  ∧ rate_limited_requests a ≤ rate_limited_requests b.

End MetricsTracker.

(* ================================================================== *)
(** * RateLimiter (utils.py) *)
(* ================================================================== *)

Module RateLimiter.

Record t := mk {
  calls_per_minute : Z;
  clients : gmap string (list Z);    (* {ip: deque of timestamps} *)
}.

(** [__init__]; the process-wide instance passes the configured limit. *)
Definition init (calls_per_minute : Z) : t := mk calls_per_minute ∅.

(** [while q and q[0] < window_start: q.popleft()] *)
Fixpoint trim (window_start : Z) (q : list Z) : list Z :=
  match q with
  | ts :: q' => if bool_decide (ts < window_start) then trim window_start q' else q
  | [] => []
  end.

(** [is_allowed(client_ip)], with [now] the reading of [time.time()]. *)
Definition is_allowed `{Runtime} (st : t) (now : Z) (client_ip : string)
  : t * bool :=
  let window_start := now - seconds 60 in
  let q := default [] (clients st !! client_ip) in
  let q := trim window_start q in
  if bool_decide (len q < calls_per_minute st) then
    (mk (calls_per_minute st) (<[client_ip := q ++ [now]]> (clients st)), true)
  else
    (mk (calls_per_minute st) (<[client_ip := q]> (clients st)), false).

(** A history of calls [(now, client_ip)], and the answers given. *)
Fixpoint run `{Runtime} (st : t) (calls : list (Z * string)) : list bool :=
  match calls with
  | [] => []
  | (now, ip) :: calls' =>
      let '(st', ok) := is_allowed st now ip in ok :: run st' calls'
  end.

(** The state after a history of calls. *)
Definition final `{Runtime} (st : t) (calls : list (Z * string)) : t :=
  foldl (λ st '(now, ip), (is_allowed st now ip).1) st calls.

(** The timestamps of the calls of [ip] that were admitted. *)
Fixpoint granted (ip : string) (calls : list (Z * string)) (oks : list bool)
  : list Z :=
  match calls, oks with
  | (now, ip') :: calls', ok :: oks' =>
      if bool_decide (ip' = ip) && ok then now :: granted ip calls' oks'
      else granted ip calls' oks'
  | _, _ => []
  end.

(** How many of the timestamps [ts] lie in the 60-second window that ends
    at [t], both ends included. *)
Definition in_window `{Runtime} (t : Z) (ts : list Z) : Z :=
  len (filter (λ x, t - seconds 60 ≤ x ∧ x ≤ t) ts).

(** What ties the deque of a client to the timestamps [A] of its admitted
    calls so far, the latest call of anyone having been made at [tmax]. *)
Definition client_inv `{Runtime} (st : t) (tmax : Z) (A : list Z) (ip : string) : Prop :=
  let q := default [] (clients st !! ip) in
  ∃ D, A = D ++ q
       ∧ Forall (λ d, d < tmax - seconds 60) D
       ∧ Forall (λ x, x ≤ tmax) A
       ∧ StronglySorted Z.le q
       ∧ ∀ t, in_window t A ≤ Z.max 0 (calls_per_minute st).

(** The time of the latest call, [tmax] when there is none. *)
Definition last_time (tmax : Z) (calls : list (Z * string)) : Z :=
  foldl (λ _ c, c.1) tmax calls.

End RateLimiter.

(* ================================================================== *)
(** * A Python dict: insertion-ordered, one entry per key *)
(* ================================================================== *)

Module PyDict.
Section Dict.
Context {K V : Type} `{EqDecision K}.

(** [d.get(k)] / [k in d] / [d[k]] *)
Fixpoint lookup (d : list (K * V)) (k : K) : option V :=
  match d with
  | [] => None
  | (k', v) :: d' => if bool_decide (k' = k) then Some v else lookup d' k
  end.

(** [d[k] = v]: an existing key keeps its position, a new one goes last. *)
Fixpoint store (d : list (K * V)) (k : K) (v : V) : list (K * V) :=
  match d with
  | [] => [(k, v)]
  | (k', v') :: d' =>
      if bool_decide (k' = k) then (k, v) :: d' else (k', v') :: store d' k v
  end.

(** [del d[k]] *)
Fixpoint del (d : list (K * V)) (k : K) : list (K * V) :=
  match d with
  | [] => []
  | (k', v') :: d' =>
      if bool_decide (k' = k) then d' else (k', v') :: del d' k
  end.

(** [d.keys()], in iteration order. *)
Definition keys (d : list (K * V)) : list K := d.*1.
End Dict.
Arguments keys {K V} d : simpl never.

(** [min(xs, key=f)]: the first element whose key is least; ValueError on
    an empty sequence. *)
Fixpoint min_from {A} (f : A → Z) (best : A) (xs : list A) : A :=
  match xs with
  | [] => best
  | x :: xs' => min_from f (if bool_decide (f x < f best) then x else best) xs'
  end.

Definition min_by {A} (f : A → Z) (xs : list A) : option A :=
  match xs with
  | [] => None
  | x :: xs' => Some (min_from f x xs')
  end.
End PyDict.

(* ================================================================== *)
(** * ResponseCache (utils.py) *)
(* ================================================================== *)

Module ResponseCache.

Record t := mk {
  max_size : Z;
  ttl_seconds : Z;
  cache : list (Z * (string * Z));   (* {prompt_hash: (response, timestamp)} *)
}.

(** [__init__] with its default arguments. *)
Definition init : t := mk 100 300 [].

(** [_make_key(prompt, provider)] *)
Definition _make_key `{Runtime} (prompt provider : string) : Z :=
  let provider_prefix :=
    if bool_decide (provider = "") then "default"%string
    else str_strip (str_lower provider) in
  str_hash (provider_prefix ++ ":" ++ str_strip (str_lower prompt))%string.

(** [self.cache[k][1]] for a key of the dict. *)
Definition timestamp_of (d : list (Z * (string * Z))) (k : Z) : Z :=
  match PyDict.lookup d k with Some (_, ts) => ts | None => 0 end.

(** [get(prompt, provider)], with [now] the reading of [time.time()]. *)
Definition get `{Runtime} (st : t) (now : Z) (prompt provider : string)
  : t * option string :=
  let key := _make_key prompt provider in
  match PyDict.lookup (cache st) key with
  | Some (response, timestamp) =>
      if bool_decide (now - timestamp < seconds (ttl_seconds st)) then
        (st, Some response)
      else
        (mk (max_size st) (ttl_seconds st) (PyDict.del (cache st) key), None)
  | None => (st, None)
  end.

(** [set(prompt, response, provider)]; [None] when [min] raises. *)
Definition set `{Runtime} (st : t) (now : Z) (prompt response provider : string)
  : option t :=
  let key := _make_key prompt provider in
  evicted ←
    (if bool_decide (max_size st ≤ len (cache st)) then
       oldest_key ← PyDict.min_by (timestamp_of (cache st)) (PyDict.keys (cache st));
       Some (PyDict.del (cache st) oldest_key)
     else Some (cache st));
  Some (mk (max_size st) (ttl_seconds st) (PyDict.store evicted key (response, now))).

(** The operations a client of the cache can issue. *)
Inductive op :=
| OpGet (now : Z) (prompt provider : string)
| OpSet (now : Z) (prompt response provider : string).

(** A raising [set] leaves the cache as it was. *)
Definition step `{Runtime} (st : t) (o : op) : t :=
  match o with
  | OpGet now p pr => (get st now p pr).1
  | OpSet now p r pr => default st (set st now p r pr)
  end.

Definition run `{Runtime} (st : t) (ops : list op) : t := foldl step st ops.

(** Well-formed cache: a dict has one entry per key, and the entries fit
    the capacity. *)
Definition wf (st : t) : Prop :=
  NoDup (PyDict.keys (cache st)) ∧ len (cache st) ≤ max_size st.

End ResponseCache.

(* ================================================================== *)
(** * ConversationStore (session_store.py) *)
(* ================================================================== *)

Module ConversationStore.

(** A stored message: [(role, content, timestamp)]. *)
Definition message : Type := string * string * Z.

(** [max_messages] is the [maxlen] of every deque; [deque] rejects a
    negative [maxlen], so the bound is a natural number. *)
Record t := mk {
  max_messages : nat;
  ttl_seconds : Z;
  _messages : gmap string (list message);
}.

(** [__init__] with its default arguments. *)
Definition init : t := mk 50 3600 ∅.

(** [msgs and now - msgs[-1][2] > self.ttl_seconds] *)
Definition expired `{Runtime} (ttl : Z) (now : Z) (msgs : list message) : bool :=
  match last msgs with
  | Some (_, _, ts) => bool_decide (seconds ttl < now - ts)
  | None => false
  end.

(** [_purge_expired()], with [now] the reading of [time.time()]. *)
Definition _purge_expired `{Runtime} (st : t) (now : Z) : t :=
  mk (max_messages st) (ttl_seconds st)
     (filter (λ kv, expired (ttl_seconds st) now kv.2 = false) (_messages st)).

(** [add(session_id, role, content)]; [now_purge] is the reading taken by
    [_purge_expired], [now] the one stamped on the message. *)
Definition add `{Runtime} (st : t) (now_purge now : Z)
    (session_id role content : string) : t :=
  let st := _purge_expired st now_purge in
  let q := default [] (_messages st !! session_id) in
  mk (max_messages st) (ttl_seconds st)
     (<[session_id := deque_append (max_messages st) q (role, content, now)]>
        (_messages st)).

(** [get(session_id)]: the [{"role", "content"}] pairs, in deque order. *)
Definition get `{Runtime} (st : t) (now : Z) (session_id : string)
  : t * list (string * string) :=
  let st := _purge_expired st now in
  match _messages st !! session_id with
  | None => (st, [])
  | Some q => (st, (λ m : message, (m.1.1, m.1.2)) <$> q)
  end.

(** The operations a client of the store can issue. *)
Inductive op :=
| OpAdd (now_purge now : Z) (session_id role content : string)
| OpGet (now : Z) (session_id : string).

Definition step `{Runtime} (st : t) (o : op) : t :=
  match o with
  | OpAdd np n sid r c => add st np n sid r c
  | OpGet n sid => (get st n sid).1
  end.

Definition run `{Runtime} (st : t) (ops : list op) : t := foldl step st ops.

(** The stored messages of a session ([[]] when it has none). *)
Definition history (st : t) (session_id : string) : list message :=
  default [] (_messages st !! session_id).

(** No session holds more than [max_messages] messages. *)
Definition bounded (st : t) : Prop :=
  ∀ session_id, (length (history st session_id) ≤ max_messages st)%nat.

End ConversationStore.

(* ================================================================== *)
(** * The process: shared stores, the clock and one client connection *)
(* ================================================================== *)

(** The JSON frames the server sends on the websocket. *)
Inductive event :=
| Connected (message : string)
| Start (source : string)
| Token (content : string)
| Done (source : string)
| Error (message : string).

(** The behaviour of a fragment generator on one call: the fragments it
    yields, then either normal exhaustion or an exception with its message. *)
Record producer := mk_producer {
  chunks : list string;
  raises : option string;
}.

(** What the collaborators outside the core do during one exchange. *)
Record Outside := mk_outside {
  gemini_reply : string + string;   (* get_gemini_response: inl msg = raises *)
  local_reply : string + string;    (* get_local_response: inl msg = raises *)
  llm_stream : producer;            (* get_llm_streaming_response *)
  fallback_reply : string;          (* the template get_fallback_response draws *)
  fresh_uuid : string;              (* uuid.uuid4().hex *)
}.

Record World := mk_world {
  rate_limiter : RateLimiter.t;
  metrics_tracker : MetricsTracker.t;
  response_cache : ResponseCache.t;
  conversation_store : ConversationStore.t;
  clock : nat → Z;        (* the successive readings of time.time() *)
  reads : nat;            (* how many readings have been taken *)
  wire : list event;      (* the frames sent on the connection so far *)
}.

(** A computation over the process state that returns or raises. *)
Record M (A : Type) : Type := mk_M { run_M : World → (string + A) * World }.
Arguments mk_M {A} _.
Arguments run_M {A} _ _.

#[export] Instance M_ret : MRet M := λ A a, mk_M (λ w, (inr a, w)).
#[export] Instance M_bind : MBind M := λ A B f m, mk_M (λ w,
  match run_M m w with
  | (inr a, w') => run_M (f a) w'
  | (inl e, w') => (inl e, w')
  end).

Definition raise {A} (msg : string) : M A := mk_M (λ w, (inl msg, w)).

(** [try: body / except Exception as e: handler(e)] *)
Definition try_except {A} (body : M A) (handler : string → M A) : M A :=
  mk_M (λ w,
    match run_M body w with
    | (inr a, w') => (inr a, w')
    | (inl e, w') => run_M (handler e) w'
    end).

(** A call that returns or raises with a message. *)
Definition call {A} (r : string + A) : M A := mk_M (λ w, (r, w)).

(** [for x in xs: body(x)] *)
Fixpoint for_each {A} (xs : list A) (body : A → M unit) : M unit :=
  match xs with
  | [] => mret tt
  | x :: xs' => body x;; for_each xs' body
  end.

(** [time.time()] *)
Definition time_time : M Z := mk_M (λ w,
  (inr (clock w (reads w)),
   mk_world (rate_limiter w) (metrics_tracker w) (response_cache w)
     (conversation_store w) (clock w) (S (reads w)) (wire w))).

(** [await self.send(text_data=json.dumps(e))] *)
Definition send (e : event) : M unit := mk_M (λ w,
  (inr tt,
   mk_world (rate_limiter w) (metrics_tracker w) (response_cache w)
     (conversation_store w) (clock w) (reads w) (wire w ++ [e]))).

Definition with_rate_limiter (w : World) (x : RateLimiter.t) : World :=
  mk_world x (metrics_tracker w) (response_cache w) (conversation_store w)
    (clock w) (reads w) (wire w).
Definition with_metrics_tracker (w : World) (x : MetricsTracker.t) : World :=
  mk_world (rate_limiter w) x (response_cache w) (conversation_store w)
    (clock w) (reads w) (wire w).
Definition with_response_cache (w : World) (x : ResponseCache.t) : World :=
  mk_world (rate_limiter w) (metrics_tracker w) x (conversation_store w)
    (clock w) (reads w) (wire w).
Definition with_conversation_store (w : World) (x : ConversationStore.t) : World :=
  mk_world (rate_limiter w) (metrics_tracker w) (response_cache w) x
    (clock w) (reads w) (wire w).

(** The methods of the process-wide instances, each reading the clock where
    its body calls [time.time()]. *)
Section Globals.
Context `{Runtime}.

Definition rate_limiter_is_allowed (client_ip : string) : M bool :=
  now ← time_time;
  mk_M (λ w,
    let '(rl, ok) := RateLimiter.is_allowed (rate_limiter w) now client_ip in
    (inr ok, with_rate_limiter w rl)).

Definition metrics_tracker_record_rate_limit : M unit := mk_M (λ w,
  (inr tt, with_metrics_tracker w
             (MetricsTracker.record_rate_limit (metrics_tracker w)))).

Definition metrics_tracker_record_request (latency_ms : Z) (source : string)
  : M unit := mk_M (λ w,
  (inr tt, with_metrics_tracker w
             (MetricsTracker.record_request (metrics_tracker w) latency_ms source))).

(** [response_cache.get]: the body calls [time.time()] only when the key
    is in the dict. *)
Definition response_cache_get (prompt provider : string) : M (option string) :=
  mk_M (λ w,
    match PyDict.lookup (ResponseCache.cache (response_cache w))
            (ResponseCache._make_key prompt provider) with
    | None => (inr None, w)
    | Some _ =>
        run_M (now ← time_time;
               mk_M (λ w,
                 let '(c, r) :=
                   ResponseCache.get (response_cache w) now prompt provider in
                 (inr r, with_response_cache w c))) w
    end).

(** [response_cache.set]: the body calls [time.time()] after the eviction,
    so not at all when [min] raises. *)
Definition response_cache_set (prompt response provider : string) : M unit :=
  mk_M (λ w,
    match ResponseCache.set (response_cache w) (clock w (reads w))
            prompt response provider with
    | Some c => run_M (time_time;; mk_M (λ w, (inr tt, with_response_cache w c))) w
    | None => (inl "min() arg is an empty sequence"%string, w)
    end).

Definition conversation_store_add (session_id role content : string) : M unit :=
  now_purge ← time_time;
  now ← time_time;
  mk_M (λ w,
    (inr tt, with_conversation_store w
               (ConversationStore.add (conversation_store w) now_purge now
                  session_id role content))).
End Globals.

(* ================================================================== *)
(** * Provider selection and the non-streaming responder (utils.py) *)
(* ================================================================== *)

Section Responder.
Context `{Runtime}.

(** [normalize_provider(provider)] *)
Definition normalize_provider (provider : string) : string :=
  let provider_normalized :=
    str_lower (if bool_decide (provider = "") then DEFAULT_LLM_PROVIDER
               else provider) in
  if bool_decide (provider_normalized = "gemini" ∨ provider_normalized = "local")
  then provider_normalized else "gemini"%string.

(** [get_llm_response(user_text, provider, user_api_key)] *)
Definition get_llm_response (out : Outside)
    (user_text provider user_api_key : string) : M (string * string) :=
  let provider := normalize_provider provider in
  cached ← response_cache_get user_text provider;
  match cached with
  | Some (String c s) => mret (String c s, (provider ++ "-cache")%string)
  | _ =>
      '(response_text, source) ←
        (if bool_decide (provider = "local") then
           response_text ← call (local_reply out);
           mret (response_text, "local"%string)
         else
           response_text ← call (gemini_reply out);
           mret (response_text, "gemini"%string));
      response_cache_set user_text response_text provider;;
      mret (response_text, source)
  end.
End Responder.

(* ================================================================== *)
(** * DialogueView (views.py) *)
(* ================================================================== *)

Module DialogueView.

(** [request.data] and the client address; an absent text or session id
    is the empty string. *)
Record request := mk_request {
  text : string;
  api_key : string;
  provider : option string;
  session_id : string;
  client_ip : string;
}.

Inductive response :=
| Response400
| Response429
| Response200 (response source : string) (latency_ms : Z) (session_id : string).

(** [post(request)] *)
Definition post `{Runtime} (out : Outside) (req : request) : M response :=
  start_time ← time_time;
  let user_text := str_strip (text req) in
  let user_api_key := api_key req in
  let provider := default DEFAULT_LLM_PROVIDER (provider req) in
  let session_id :=
    if bool_decide (session_id req = "") then fresh_uuid out else session_id req in
  if bool_decide (user_text = "") then mret Response400
  else
    allowed ← rate_limiter_is_allowed (client_ip req);
    if negb allowed then
      metrics_tracker_record_rate_limit;;
      mret Response429
    else
      '(response_text, source) ←
        try_except (get_llm_response out user_text provider user_api_key)
          (λ _, mret (fallback_reply out, "fallback"%string));
      end_time ← time_time;
      let latency_ms := ((end_time - start_time) * 1000) `quot` hz in
      metrics_tracker_record_request latency_ms source;;
      conversation_store_add session_id "user" user_text;;
      conversation_store_add session_id "assistant" response_text;;
      mret (Response200 response_text source latency_ms session_id).

End DialogueView.

(* ================================================================== *)
(** * The producer/consumer hand-off of [stream_llm_response] *)
(* ================================================================== *)

(** [produce] runs on a worker thread and schedules [queue.put(chunk)] for
    every fragment, then [queue.put(None)] in its [finally] clause; the event
    loop runs the puts in the order they were scheduled.  The consumer loop
    takes from the queue on the event loop.  The two sides interleave freely;
    each constructor of [step] is one move of one side. *)
Module Handoff.

Inductive consumer :=
| Polling                         (* inside [while True] *)
| Awaiting                        (* at [await asyncio.wrap_future(producer_task)] *)
| Finished (raised : option string).

Record state := mk {
  pending : list string;          (* fragments the generator has yet to yield *)
  exhausted : bool;               (* the sentinel has been put *)
  queue : list (option string);   (* asyncio.Queue, oldest first *)
  collected : list string;
  sent : list event;
  side : consumer;
}.

Definition init (p : producer) : state := mk (chunks p) false [] [] [] Polling.

Inductive step (p : producer) : state → state → Prop :=
| produce_chunk c rest q col out sd :
    step p (mk (c :: rest) false q col out sd)
           (mk rest false (q ++ [Some c]) col out sd)
| produce_end q col out sd :
    step p (mk [] false q col out sd)
           (mk [] true (q ++ [None]) col out sd)
| consume_chunk pend ex c q col out :
    step p (mk pend ex (Some c :: q) col out Polling)
           (mk pend ex q (col ++ [c]) (out ++ [Token c]) Polling)
| consume_sentinel pend ex q col out :
    step p (mk pend ex (None :: q) col out Polling)
           (mk pend ex q col out Awaiting)
| join q col out :
    step p (mk [] true q col out Awaiting)
           (mk [] true q col out (Finished (raises p))).

(** The schedule that lets the producer run to its end before the
    consumer takes its first item. *)
Definition drain (p : producer) : state :=
  mk [] true [] (chunks p) (Token <$> chunks p) (Finished (raises p)).

(** An upper bound on the moves still to be made. *)
Definition fuel (s : state) : nat :=
  (2 * length (pending s) + (if exhausted s then 0 else 2)
   + length (queue s)
   + match side s with Polling => 2 | Awaiting => 1 | Finished _ => 0 end)%nat.

(** What every state of a hand-off satisfies: the fragments of the
    generator are, in order, those forwarded, those waiting in the queue
    ([waiting]) and those not yet yielded; the sentinel, once put, is the
    last item of the queue until the consumer takes it. *)
Definition inv (p : producer) (s : state) : Prop :=
  ∃ waiting,
    chunks p = collected s ++ waiting ++ pending s
    ∧ sent s = Token <$> collected s
    ∧ (exhausted s = true → pending s = [])
    ∧ match side s with
      | Polling =>
          queue s = (Some <$> waiting) ++ (if exhausted s then [None] else [])
      | Awaiting => queue s = [] ∧ waiting = [] ∧ exhausted s = true
      | Finished r =>
          queue s = [] ∧ waiting = [] ∧ exhausted s = true ∧ r = raises p
      end.

End Handoff.

(* ================================================================== *)
(** * StreamConsumer (consumers.py) *)
(* ================================================================== *)

(** [s.split(' ')] *)
Fixpoint split_on (sep : ascii) (s : string) : list string :=
  match s with
  | EmptyString => [EmptyString]
  | String c s' =>
      if Ascii.eqb c sep then EmptyString :: split_on sep s'
      else match split_on sep s' with
           | w :: ws => String c w :: ws
           | [] => [String c EmptyString]
           end
  end.

(** [enumerate(xs)] *)
Definition enumerate {A} (xs : list A) : list (Z * A) :=
  imap (λ i x, (Z.of_nat i, x)) xs.

(** [''.join(xs)] *)
Definition join (xs : list string) : string := String.concat "" xs.

Module StreamConsumer.

(** The decoded frame of [receive]; an absent text or session id is the
    empty string. *)
Record request := mk_request {
  text : string;
  api_key : string;
  provider : option string;
  session_id : string;
}.

(** [connect()] *)
Definition connect : M unit :=
  send (Connected "Connected to AI Therapist stream").

Section Bridge.
Context `{Runtime}.

(** [stream_llm_response(user_text, provider, api_key, session_id)].
    The consumer loop forwards the fragments as the hand-off delivers
    them; the await of the producer task re-raises its exception. *)
Definition stream_llm_response (out : Outside)
    (user_text provider api_key session_id : string) : M unit :=
  try_except
    (send (Start provider);;
     let collected := chunks (llm_stream out) in
     for_each collected (λ chunk, send (Token chunk));;
     match raises (llm_stream out) with
     | Some e => raise e
     | None => mret tt
     end;;
     send (Done provider);;
     let full_response := join collected in
     if bool_decide (session_id = "") then mret tt
     else
       conversation_store_add session_id "user" user_text;;
       conversation_store_add session_id "assistant" full_response)
    (λ e, raise e).

(** [stream_fallback_response(user_text, session_id)] *)
Definition stream_fallback_response (out : Outside)
    (user_text session_id : string) : M unit :=
  let response := fallback_reply out in
  send (Start "fallback");;
  let words := split_on " " response in
  for_each (enumerate words) (λ '(i, word),
    let token :=
      (word ++ (if bool_decide (i < len words - 1) then " " else ""))%string in
    send (Token token));;
  send (Done "fallback");;
  if bool_decide (session_id = "") then mret tt
  else
    conversation_store_add session_id "user" user_text;;
    conversation_store_add session_id "assistant" response.

(** [stream_response(user_text, provider, user_api_key, session_id)] *)
Definition stream_response (out : Outside)
    (user_text provider user_api_key session_id : string) : M unit :=
  let provider := normalize_provider provider in
  let api_key := user_api_key in
  try_except
    (stream_llm_response out user_text provider api_key session_id)
    (λ _, stream_fallback_response out user_text session_id).

(** [receive(text_data)]; [None] is a frame [json.loads] rejects. *)
Definition receive (out : Outside) (text_data : option request) : M unit :=
  try_except
    (match text_data with
     | None => send (Error "Invalid JSON format")
     | Some data =>
         let user_text := str_strip (text data) in
         let user_api_key := api_key data in
         let provider := default DEFAULT_LLM_PROVIDER (provider data) in
         let session_id :=
           if bool_decide (session_id data = "") then fresh_uuid out
           else session_id data in
         if bool_decide (user_text = "") then
           send (Error "Text field is required")
         else
           stream_response out user_text provider user_api_key session_id
     end)
    (λ e, send (Error e)).
End Bridge.

End StreamConsumer.

(* ================================================================== *)
(** * The other handlers of views.py *)
(* ================================================================== *)

(** [DialogueView.get_client_ip(request)]: the two arguments are
    [request.META.get('HTTP_X_FORWARDED_FOR')] and the REMOTE_ADDR entry of
    [request.META], [None] when absent.  [None] as a result is the
    IndexError of [split(',')[0]]. *)
Definition get_client_ip `{Runtime} (x_forwarded_for remote_addr : option string)
  : option string :=
  match x_forwarded_for with
  | Some (String c s) =>
      first ← py_index (split_on "," (String c s)) 0;
      Some (str_strip first)
  | _ => Some (default "unknown"%string remote_addr)
  end.

(** [conversation_store.get] on the process-wide instance. *)
Definition conversation_store_get `{Runtime} (session_id : string)
  : M (list (string * string)) :=
  now ← time_time;
  mk_M (λ w,
    let '(cs, h) := ConversationStore.get (conversation_store w) now session_id in
    (inr h, with_conversation_store w cs)).

Module SessionHistoryView.

(** [get(request, session_id)]: the list under the key "history". *)
Definition get `{Runtime} (session_id : string) : M (list (string * string)) :=
  history ← conversation_store_get session_id;
  match history with
  | [] => mret []
  | _ => mret history
  end.

End SessionHistoryView.

Module MetricsView.

(** [get(request)]: the dict of [metrics_tracker.get_metrics()]; an
    exception of [get_metrics] propagates. *)
Definition get : M MetricsTracker.snapshot :=
  mk_M (λ w,
    match MetricsTracker.get_metrics (metrics_tracker w) with
    | Some (mt, snap) => (inr snap, with_metrics_tracker w mt)
    | None => (inl "list index out of range"%string, w)
    end).

End MetricsView.

(* ================================================================== *)
(** * The canned responder (utils.py) *)
(* ================================================================== *)

Definition FALLBACK_RESPONSES : list string := [
  "I hear you, and I appreciate you sharing that with me. It sounds like you're going through something important. Would you like to tell me more about how that makes you feel?";
  "Thank you for opening up. What you're experiencing sounds meaningful. Can you help me understand a bit more about what's on your mind?";
  "I'm here to listen. It takes courage to express yourself like this. What feels most important for you to explore right now?";
  "That sounds like it weighs on you. I want you to know that your feelings are valid. What would feel most helpful to discuss?";
  "I appreciate your trust in sharing this with me. Sometimes talking through our thoughts can help us see things more clearly. What else is coming up for you?";
  "It sounds like there's a lot going on for you. Take your time - I'm here to listen without judgment. What feels most pressing?"
]%string.

Definition GREETING_RESPONSES : list string := [
  "Hello! I'm glad you're here. I'm here to listen and support you. What's on your mind today?";
  "Hi there! Thank you for reaching out. This is a safe space to share whatever you'd like. How are you feeling?";
  "Welcome! I'm here to listen. Whatever you're experiencing, you don't have to face it alone. What would you like to talk about?"
]%string.

Definition ACKNOWLEDGMENT_RESPONSES : list string := [
  "I understand. Please, continue whenever you're ready.";
  "I see. Take your time - there's no rush here.";
  "Okay, I'm following you. What comes to mind next?"
]%string.

(** [user_text.split()], a builtin the responder only counts the words of. *)
Class StrSplit := str_split : string → list string.

(** [needle in hay] on strings. *)
Fixpoint contains (needle hay : string) : bool :=
  String.prefix needle hay
  || match hay with
     | EmptyString => false
     | String _ hay' => contains needle hay'
     end.

(** [random.choice(xs)], [draw] being the random draw; IndexError on an
    empty sequence. *)
Definition random_choice (draw : nat) (xs : list string) : option string :=
  xs !! (draw `mod` length xs)%nat.

(** [get_fallback_response(user_text)] *)
Definition get_fallback_response `{Runtime} `{StrSplit} (draw : nat)
    (user_text : string) : option string :=
  let user_lower := str_strip (str_lower user_text) in
  let greetings :=
    ["hello"; "hi"; "hey"; "good morning"; "good afternoon"; "good evening"]%string in
  if existsb (λ g, contains g user_lower) greetings then
    random_choice draw GREETING_RESPONSES
  else if bool_decide (len (str_split user_text) ≤ 3) then
    random_choice draw ACKNOWLEDGMENT_RESPONSES
  else
    random_choice draw FALLBACK_RESPONSES.

(* ================================================================== *)
(** * Vocabulary for statements about an exchange *)
(* ================================================================== *)

(** [m], run in the process state [w], ends with [r] (a result, or a raised
    message) having sent the frames [evs], in that order, and nothing else. *)
Definition emits {A} (m : M A) (w : World) (r : string + A) (evs : list event)
  : Prop :=
  (run_M m w).1 = r ∧ wire (run_M m w).2 = wire w ++ evs.

Definition is_start (e : event) : bool :=
  match e with Start _ => true | _ => false end.
Definition is_done (e : event) : bool :=
  match e with Done _ => true | _ => false end.
Definition is_error (e : event) : bool :=
  match e with Error _ => true | _ => false end.

(** The tokens [stream_fallback_response] cuts a canned response into. *)
Definition fallback_tokens (response : string) : list string :=
  let words := split_on " " response in
  (λ '(i, word),
     (word ++ (if bool_decide (i < len words - 1) then " " else ""))%string)
    <$> enumerate words.

(** A complete stream from one source. *)
Definition streamed (source : string) (frags : list string) : list event :=
  Start source :: (Token <$> frags) ++ [Done source].

(** A stream from [source] cut short after [frags], then the canned response
    streamed as [toks]. *)
Definition fell_back (source : string) (frags toks : list string) : list event :=
  Start source :: (Token <$> frags) ++ streamed "fallback" toks.

(** How many of the frames [evs] are of the kind [f]. *)
Definition count (f : event → bool) (evs : list event) : nat :=
  length (List.filter f evs).

(* ================================================================== *)
(** * More vocabulary: what a run of operations recorded or sent *)
(* ================================================================== *)

(** The latencies a sequence of tracker operations records, in order. *)
Definition recorded (ops : list MetricsTracker.op) : list Z :=
  omap (λ o, match o with MetricsTracker.RecordRequest l _ => Some l | _ => None end)
    ops.

(** How many rate-limit records a sequence of tracker operations makes. *)
Definition rate_limits (ops : list MetricsTracker.op) : nat :=
  length (List.filter
            (λ o, match o with MetricsTracker.RecordRateLimit => true | _ => false end)
            ops).

(** How many of the calls [(now, client_ip)] were made by [ip]. *)
Definition calls_of (ip : string) (calls : list (Z * string)) : nat :=
  length (filter (λ c, c.2 = ip) calls).

(** The frames sent between the process states [w] and [w']. *)
Definition emitted (w w' : World) : list event :=
  drop (length (wire w)) (wire w').

(** A frame that ends an exchange. *)
Definition is_terminal (e : event) : bool := is_done e || is_error e.

(** The process state [w] once the frames [evs] have been sent. *)
Definition sent (w : World) (evs : list event) : World :=
  mk_world (rate_limiter w) (metrics_tracker w) (response_cache w)
    (conversation_store w) (clock w) (reads w) (wire w ++ evs).

(** The process state [w] once a user turn and the assistant's turn have
    been added to the session [sid], each [add] taking two readings of the
    clock; nothing is stored under an empty session id. *)
Definition persisted `{Runtime} (w : World) (sid user_text response : string)
  : World :=
  if bool_decide (sid = ""%string) then w
  else
    mk_world (rate_limiter w) (metrics_tracker w) (response_cache w)
      (ConversationStore.add
         (ConversationStore.add (conversation_store w)
            (clock w (reads w)) (clock w (1 + reads w)) sid "user" user_text)
         (clock w (2 + reads w)) (clock w (3 + reads w)) sid "assistant" response)
      (clock w) (4 + reads w) (wire w).

(** What [DialogueView.post] has done when it returns [r] in the state
    [w'], having started in [w]. *)
Definition post_effect `{Runtime} (out : Outside) (req : DialogueView.request)
    (w : World) (r : DialogueView.response) (w' : World) : Prop :=
  let user_text := str_strip (DialogueView.text req) in
  let provider :=
    normalize_provider (default DEFAULT_LLM_PROVIDER (DialogueView.provider req)) in
  let limited :=
    RateLimiter.is_allowed (rate_limiter w) (clock w (1 + reads w))
      (DialogueView.client_ip req) in
  match r with
  | DialogueView.Response400 =>
      user_text = ""%string
      ∧ rate_limiter w' = rate_limiter w
      ∧ metrics_tracker w' = metrics_tracker w
      ∧ response_cache w' = response_cache w
      ∧ conversation_store w' = conversation_store w
  | DialogueView.Response429 =>
      user_text ≠ ""%string
      ∧ limited.2 = false
      ∧ rate_limiter w' = limited.1
      ∧ metrics_tracker w' = MetricsTracker.record_rate_limit (metrics_tracker w)
      ∧ response_cache w' = response_cache w
      ∧ conversation_store w' = conversation_store w
  | DialogueView.Response200 response_text source latency_ms sid =>
      user_text ≠ ""%string
      ∧ limited.2 = true
      ∧ rate_limiter w' = limited.1
      ∧ metrics_tracker w' =
          MetricsTracker.record_request (metrics_tracker w) latency_ms source
      ∧ sid = (if bool_decide (DialogueView.session_id req = ""%string)
               then fresh_uuid out else DialogueView.session_id req)
      ∧ (source = "fallback"%string ∧ response_text = fallback_reply out
         ∨ source = provider
         ∨ source = (provider ++ "-cache")%string ∧ response_text ≠ ""%string)
      ∧ clock w' = clock w
      ∧ ∃ k, reads w' = S (S (S (S k)))
             ∧ conversation_store w' =
                 ConversationStore.add
                   (ConversationStore.add (conversation_store w)
                      (clock w k) (clock w (S k)) sid "user" user_text)
                   (clock w (S (S k))) (clock w (S (S (S k)))) sid
                   "assistant" response_text
  end.

(* ================================================================== *)
(** * A concrete runtime, to evaluate the model on *)
(* ================================================================== *)

Module Demo.
Definition lower_char (c : ascii) : ascii :=
  let n := nat_of_ascii c in
  if ((65 <=? n) && (n <=? 90))%nat then ascii_of_nat (n + 32) else c.

Fixpoint lower (s : string) : string :=
  match s with
  | EmptyString => EmptyString
  | String c s' => String (lower_char c) (lower s')
  end.

Fixpoint lstrip (s : string) : string :=
  match s with
  | String " " s' => lstrip s'
  | _ => s
  end.

Fixpoint rstrip (s : string) : string :=
  match s with
  | EmptyString => EmptyString
  | String c s' =>
      match rstrip s', c with
      | EmptyString, " "%char => EmptyString
      | r, _ => String c r
      end
  end.

Fixpoint hash_from (acc : Z) (s : string) : Z :=
  match s with
  | EmptyString => acc
  | String c s' => hash_from ((acc * 31 + Z.of_nat (nat_of_ascii c)) `mod` 2 ^ 61) s'
  end.

(** Millisecond clock, ASCII case folding, blanks stripped, a polynomial hash. *)
Definition runtime : Runtime := {|
  hz := 1000;
  str_lower := lower;
  str_strip := λ s, rstrip (lstrip s);
  str_hash := hash_from 7;
  DEFAULT_LLM_PROVIDER := "gemini";
|}.

(** [n] exchanges of one session, a second apart: the user's turn then
    the assistant's, both stamped [i] seconds. *)
Definition chat (session_id : string) (n : nat) : list ConversationStore.op :=
  i ← seq 0 n;
  [ConversationStore.OpAdd (Z.of_nat i * 1000) (Z.of_nat i * 1000)
     session_id "user" "question";
   ConversationStore.OpAdd (Z.of_nat i * 1000) (Z.of_nat i * 1000)
     session_id "assistant" "answer"].

(** Collaborators for one exchange: the remote provider answers or fails,
    the generator yields [frags] and then stops or fails. *)
Definition outside (gemini : string + string) (frags : list string)
    (failure : option string) : Outside :=
  mk_outside gemini (inl "connection refused"%string)
    (mk_producer frags failure)
    "I'm here to listen. What feels most pressing?"
    "0f8fad5bd9cb469fa16570867728950e".

(** A clock that reads [t0], [t0 + dt], [t0 + 2 dt], ... *)
Definition ticking (t0 dt : Z) : nat → Z := λ n, t0 + dt * Z.of_nat n.

(** The process right after start-up, with the default configuration. *)
Definition fresh (clk : nat → Z) : World :=
  mk_world (RateLimiter.init 10) MetricsTracker.init ResponseCache.init
    ConversationStore.init clk 0 [].
End Demo.

(** [str.split()] on ASCII text, for the same purpose. *)
Module DemoWords.

(** The ASCII characters [str.isspace] accepts. *)
Definition is_space (c : ascii) : bool :=
  let n := nat_of_ascii c in
  ((9 <=? n) && (n <=? 13) || (28 <=? n) && (n <=? 32))%nat.

(** The pieces between single whitespace characters, empty ones included. *)
Fixpoint pieces (s : string) : list string :=
  match s with
  | EmptyString => [EmptyString]
  | String c s' =>
      if is_space c then EmptyString :: pieces s'
      else match pieces s' with
           | w :: ws => String c w :: ws
           | [] => [String c EmptyString]
           end
  end.

Definition split (s : string) : list string :=
  List.filter (λ w, negb (String.eqb w "")) (pieces s).

#[export] Instance words : StrSplit := split.
End DemoWords.

(* ================================================================== *)
(** * General facts about the Python-level helpers *)
(* ================================================================== *)

Lemma len_nonneg {A} (xs : list A) : 0 ≤ len xs.
Proof. unfold len. lia. Qed.

Lemma len_app {A} (xs ys : list A) : len (xs ++ ys) = len xs + len ys.
Proof. unfold len. rewrite length_app. lia. Qed.

Lemma py_index_nat {A} (xs : list A) (i : nat) :
  py_index xs (Z.of_nat i) = xs !! i.
Proof.
  unfold py_index. rewrite bool_decide_eq_true_2 by lia.
  by rewrite Nat2Z.id.
Qed.

Lemma deque_append_length {A} (maxlen : nat) (q : list A) (x : A) :
  (length q ≤ maxlen → length (deque_append maxlen q x) ≤ maxlen)%nat.
Proof.
  intros Hq. unfold deque_append. case_bool_decide as Hlt.
  - rewrite length_tl, length_app. simpl. lia.
  - lia.
Qed.

Lemma deque_append_room {A} (maxlen : nat) (q : list A) (x : A) :
  (length q < maxlen)%nat → deque_append maxlen q x = q ++ [x].
Proof.
  intros Hq. unfold deque_append. rewrite bool_decide_eq_false_2; [done|].
  rewrite length_app. simpl. lia.
Qed.

Lemma deque_append_full {A} (maxlen : nat) (q : list A) (x : A) :
  (0 < maxlen)%nat → length q = maxlen → deque_append maxlen q x = tail q ++ [x].
Proof.
  intros Hpos Hq. unfold deque_append. rewrite bool_decide_eq_true_2.
  - destruct q; [simpl in *; lia | done].
  - rewrite length_app. simpl. lia.
Qed.

Lemma sorted_Sorted (xs : list Z) : Sorted Z.le (sorted xs).
Proof. apply Sorted_merge_sort. intros x y. lia. Qed.

Lemma sorted_Permutation (xs : list Z) : sorted xs ≡ₚ xs.
Proof. apply merge_sort_Permutation. Qed.

Lemma sorted_length (xs : list Z) : length (sorted xs) = length xs.
Proof. by rewrite sorted_Permutation. Qed.

(* ================================================================== *)
(** * MetricsTracker: classification, counters, percentiles *)
(* ================================================================== *)

Section MetricsTrackerFacts.
Import MetricsTracker.

Lemma record_request_total st l src :
  total_requests (record_request st l src) = total_requests st + 1.
Proof. unfold record_request. by repeat case_match. Qed.

Lemma record_request_rate_limited st l src :
  rate_limited_requests (record_request st l src) = rate_limited_requests st.
Proof. unfold record_request. by repeat case_match. Qed.

Lemma record_request_latencies st l src :
  latencies (record_request st l src) = deque_append maxlen (latencies st) l.
Proof. unfold record_request. by repeat case_match. Qed.

Lemma record_request_classified st l src :
  classified (record_request st l src) =
    if String.prefix "gemini" src then
      (gemini_requests st + 1, local_requests st, fallback_requests st)
    else if String.prefix "local" src then
      (gemini_requests st, local_requests st + 1, fallback_requests st)
    else
      (gemini_requests st, local_requests st, fallback_requests st + 1).
Proof. unfold record_request, classified. by repeat case_match. Qed.

Lemma record_rate_limit_only st :
  record_rate_limit st =
    mk (total_requests st) (gemini_requests st) (local_requests st)
       (fallback_requests st) (rate_limited_requests st + 1) (latencies st).
Proof. done. Qed.

(** Below the capacity of the latency window, the binary64 product
    [n * 0.95] truncates to the exact [floor(n * 95 / 100)]. *)
Lemma p95_idx_exact (n : nat) :
  (n ≤ maxlen)%nat → p95_idx (Z.of_nat n) = Some (Z.of_nat (n * 95 / 100)).
Proof.
  intros Hn.
  assert (Hall : forallb (λ k, bool_decide
            (p95_idx (Z.of_nat k) = Some (Z.of_nat (k * 95 / 100))))
            (seq 0 (S maxlen)) = true) by (vm_compute; reflexivity).
  rewrite forallb_forall in Hall.
  specialize (Hall n). rewrite bool_decide_eq_true in Hall.
  apply Hall, in_seq. lia.
Qed.

(** The literal is the double nearest to 95/100. *)
Lemma lit_0_95_nearest :
  Float64.lit_0_95 =
    SFldexp Float64.prec Float64.emax (Float64.of_int 8556839292003942) (-53)
  ∧ Z.abs (100 * 8556839292003942 - 95 * 2 ^ 53) * 2 < 100.
Proof. split; [vm_compute; reflexivity | lia]. Qed.

Lemma percentiles_spec lats :
  lats ≠ [] → (length lats ≤ maxlen)%nat →
  ∃ median p95,
    percentiles lats = Some (median, p95)
    ∧ sorted lats !! (length lats / 2)%nat = Some median
    ∧ sorted lats !! (Nat.min (length lats * 95 / 100) (length lats - 1)) = Some p95.
Proof.
  intros Hne Hlen.
  assert (Hn : (0 < length lats)%nat) by (destruct lats; [done | simpl; lia]).
  set (n := length lats) in *.
  assert (Hs : length (sorted lats) = n) by apply sorted_length.
  destruct (lookup_lt_is_Some_2 (sorted lats) (n / 2)%nat) as [median Hm].
  { rewrite Hs. apply Nat.div_lt; lia. }
  destruct (lookup_lt_is_Some_2 (sorted lats) (Nat.min (n * 95 / 100) (n - 1)))
    as [p95 Hp].
  { rewrite Hs. lia. }
  exists median, p95. split_and!; [|done..].
  unfold percentiles. destruct lats as [|x lats']; [done|].
  fold n. cbv zeta. unfold len. rewrite Hs.
  replace (Z.of_nat n `div` 2) with (Z.of_nat (n / 2)) by (by rewrite Nat2Z.inj_div).
  rewrite py_index_nat, Hm. cbn [mbind option_bind].
  rewrite p95_idx_exact by done. cbn [mbind option_bind].
  replace (Z.of_nat (n * 95 / 100) `min` (Z.of_nat n - 1))
    with (Z.of_nat (Nat.min (n * 95 / 100) (n - 1))) by lia.
  by rewrite py_index_nat, Hp.
Qed.

Lemma run_app st ops1 ops2 : run st (ops1 ++ ops2) = run (run st ops1) ops2.
Proof. apply foldl_app. Qed.

Lemma get_metrics_state st r : get_metrics st = Some r → r.1 = st.
Proof.
  unfold get_metrics. destruct (percentiles (latencies st)) as [[m p]|]; simpl;
    [|done]. by intros [= <-].
Qed.

Lemma step_get_metrics st : step st GetMetrics = st.
Proof.
  simpl. destruct (get_metrics st) as [[st' snap]|] eqn:E; [|done].
  by apply get_metrics_state in E.
Qed.

(** The latency window never holds more than [maxlen] samples. *)
Lemma step_latencies_bounded st o :
  (length (latencies st) ≤ maxlen → length (latencies (step st o)) ≤ maxlen)%nat.
Proof.
  intros Hst. destruct o as [l src| |].
  - simpl. rewrite record_request_latencies. by apply deque_append_length.
  - done.
  - by rewrite step_get_metrics.
Qed.

Lemma run_latencies_bounded st ops :
  (length (latencies st) ≤ maxlen → length (latencies (run st ops)) ≤ maxlen)%nat.
Proof.
  revert st. induction ops as [|o ops IH]; intros st Hst; [done|].
  apply IH. by apply step_latencies_bounded.
Qed.

Lemma step_counters_ok st o : counters_ok st → counters_ok (step st o).
Proof.
  unfold counters_ok. intros Hst. destruct o as [l src| |].
  - simpl. unfold record_request. repeat case_match; simpl; lia.
  - simpl. lia.
  - by rewrite step_get_metrics.
Qed.

Lemma step_counters_le st o : counters_le st (step st o).
Proof.
  unfold counters_le. destruct o as [l src| |].
  - simpl. unfold record_request. repeat case_match; simpl; lia.
  - simpl. lia.
  - rewrite step_get_metrics. lia.
Qed.

Lemma run_counters_ok st ops : counters_ok st → counters_ok (run st ops).
Proof.
  revert st. induction ops as [|o ops IH]; intros st Hst; [done|].
  apply IH. by apply step_counters_ok.
Qed.

Lemma run_counters_le st ops : counters_le st (run st ops).
Proof.
  revert st. induction ops as [|o ops IH]; intros st.
  - unfold counters_le. simpl. lia.
  - specialize (IH (step st o)). pose proof (step_counters_le st o) as Hs.
    unfold counters_le in *. simpl. fold (run (step st o) ops). lia.
Qed.

(** C1, as amended.  [record_request] adds one to the total and to exactly
    one classified counter, chosen by the prefix of the source tag:
    "gemini..." counts as remote, otherwise "local..." counts as local,
    otherwise the call counts as a fallback.  The cache-hit tags
    "gemini-cache" and "local-cache" carry their provider's prefix and are
    counted under that provider; "fallback" is counted as a fallback. *)
Theorem record_request_classification st latency_ms source :
  let st' := record_request st latency_ms source in
  total_requests st' = total_requests st + 1
  ∧ rate_limited_requests st' = rate_limited_requests st
  ∧ classified st' =
      (if String.prefix "gemini" source then
         (gemini_requests st + 1, local_requests st, fallback_requests st)
       else if String.prefix "local" source then
         (gemini_requests st, local_requests st + 1, fallback_requests st)
       else
         (gemini_requests st, local_requests st, fallback_requests st + 1))
  ∧ classified (record_request st latency_ms "gemini-cache") =
      (gemini_requests st + 1, local_requests st, fallback_requests st)
  ∧ classified (record_request st latency_ms "local-cache") =
      (gemini_requests st, local_requests st + 1, fallback_requests st)
  ∧ classified (record_request st latency_ms "fallback") =
      (gemini_requests st, local_requests st, fallback_requests st + 1).
Proof.
  cbv zeta. rewrite record_request_total, record_request_rate_limited.
  by rewrite !record_request_classified.
Qed.

(** C1 fails as stated: a request served from the cache of the remote
    provider, tagged "gemini-cache", does not increment the fallback
    counter; it increments the remote counter. *)
Lemma record_request_cache_tag_not_fallback :
  let st' := record_request init 12 "gemini-cache" in
  fallback_requests st' ≠ fallback_requests init + 1
  ∧ fallback_requests st' = fallback_requests init
  ∧ gemini_requests st' = gemini_requests init + 1.
Proof. by vm_compute. Qed.

(** C2, as amended.  With samples recorded, [get_metrics] returns (it does
    not raise), leaves the tracker as it was, and reports: as median the
    element of the ascending-sorted samples at index [count / 2] (the
    upper of the two middle elements when the count is even), and as p95
    the sorted element at index [floor(count * 0.95)] clamped to
    [count - 1].  Latencies 10,20,30,40,50 give median 30 and p95 50. *)
Theorem get_metrics_percentiles ops :
  let st := run init ops in
  let n := length (latencies st) in
  latencies st ≠ [] →
  ∃ srt snap,
    Sorted Z.le srt ∧ srt ≡ₚ latencies st
    ∧ get_metrics st = Some (st, snap)
    ∧ srt !! (n / 2)%nat = Some (latency_median_ms snap)
    ∧ srt !! (Nat.min (n * 95 / 100) (n - 1)) = Some (latency_p95_ms snap)
    ∧ (Nat.Even n → (n / 2 = S ((n - 1) / 2))%nat)
    ∧ percentiles [10; 20; 30; 40; 50] = Some (30, 50).
Proof.
  intros st n Hne.
  assert (Hlen : (length (latencies st) ≤ maxlen)%nat).
  { apply run_latencies_bounded. simpl. lia. }
  destruct (percentiles_spec _ Hne Hlen) as (median & p95 & Hp & Hm & H95).
  exists (sorted (latencies st)),
    (mk_snapshot (total_requests st) (gemini_requests st) (local_requests st)
       (fallback_requests st) (rate_limited_requests st) median p95).
  split_and!.
  - apply sorted_Sorted.
  - apply sorted_Permutation.
  - unfold get_metrics. by rewrite Hp.
  - done.
  - done.
  - intros [k Hk]. assert (0 < k)%nat by (destruct (latencies st); simpl in *; [done|lia]).
    replace (n / 2)%nat with k.
    2:{ rewrite Hk. symmetry. rewrite Nat.mul_comm. by apply Nat.div_mul. }
    replace (n - 1)%nat with (1 + (k - 1) * 2)%nat by lia.
    rewrite Nat.div_add by lia. simpl. lia.
  - by vm_compute.
Qed.

Lemma get_metrics_percentiles_witness :
  ∃ srt snap,
    let st := run init (RecordRequest 30 "gemini" :: RecordRequest 10 "local"
                        :: RecordRequest 20 "fallback" :: []) in
    Sorted Z.le srt ∧ srt ≡ₚ latencies st
    ∧ get_metrics st = Some (st, snap)
    ∧ latency_median_ms snap = 20 ∧ latency_p95_ms snap = 30.
Proof.
  destruct (get_metrics_percentiles
              (RecordRequest 30 "gemini" :: RecordRequest 10 "local"
               :: RecordRequest 20 "fallback" :: []))
    as (srt & snap & Hs & Hp & Hg & Hm & H95 & _); [by vm_compute|].
  exists srt, snap. cbv zeta. split_and!; [done..| |].
  - vm_compute in Hg. by injection Hg as <-.
  - vm_compute in Hg. by injection Hg as <-.
Defined.

(** C2 fails as stated: on the four samples 10,20,30,40 the lower-middle
    element is 20, and the reported median is 30. *)
Lemma median_is_not_lower_middle :
  let st := run init (RecordRequest 10 "gemini" :: RecordRequest 20 "gemini"
                      :: RecordRequest 30 "gemini" :: RecordRequest 40 "gemini"
                      :: []) in
  latencies st = [10; 20; 30; 40]
  ∧ lower_middle (latencies st) = Some 20
  ∧ (latency_median_ms ∘ snd <$> get_metrics st) = Some 30
  ∧ (latency_median_ms ∘ snd <$> get_metrics st) ≠ lower_middle (latencies st).
Proof. by vm_compute. Qed.

(** C10.  After every sequence of operations on a fresh tracker, the total
    equals the sum of the three classified counters and the five counters
    are non-negative; no counter ever decreases as the sequence goes on;
    [record_request] adds one to the total and to exactly one classified
    counter, and [record_rate_limit] changes the rate-limited counter only. *)
Theorem counters_invariant ops :
  let st := run init ops in
  (total_requests st = gemini_requests st + local_requests st + fallback_requests st
   ∧ 0 ≤ total_requests st ∧ 0 ≤ gemini_requests st ∧ 0 ≤ local_requests st
   ∧ 0 ≤ fallback_requests st ∧ 0 ≤ rate_limited_requests st)
  ∧ (∀ more, counters_le st (run init (ops ++ more)))
  ∧ (∀ l src,
       total_requests (record_request st l src) = total_requests st + 1
       ∧ rate_limited_requests (record_request st l src) = rate_limited_requests st
       ∧ (classified (record_request st l src) =
            (gemini_requests st + 1, local_requests st, fallback_requests st)
          ∨ classified (record_request st l src) =
            (gemini_requests st, local_requests st + 1, fallback_requests st)
          ∨ classified (record_request st l src) =
            (gemini_requests st, local_requests st, fallback_requests st + 1)))
  ∧ record_rate_limit st =
      mk (total_requests st) (gemini_requests st) (local_requests st)
         (fallback_requests st) (rate_limited_requests st + 1) (latencies st).
Proof.
  intros st. split; [|split; [|split]].
  - apply (run_counters_ok init ops). unfold counters_ok. simpl. lia.
  - intros more. rewrite run_app. apply run_counters_le.
  - intros l src. rewrite record_request_total, record_request_rate_limited,
      record_request_classified. do 2 (split; [done|]).
    repeat case_match; auto.
  - done.
Qed.

End MetricsTrackerFacts.

(* ================================================================== *)
(** * RateLimiter: the sliding window *)
(* ================================================================== *)

Section RateLimiterFacts.
Context `{Runtime}.
Import RateLimiter.

Lemma trim_split ws q :
  StronglySorted Z.le q →
  ∃ D, q = D ++ trim ws q
       ∧ Forall (λ d, d < ws) D ∧ Forall (λ x, ws ≤ x) (trim ws q).
Proof.
  induction 1 as [|x q Hq IH Hx].
  - exists []. by repeat constructor.
  - simpl. case_bool_decide as Hlt.
    + destruct IH as (D & HD & Hold & Hnew). exists (x :: D).
      split_and!; [by rewrite HD at 1 | by constructor | done].
    + exists []. split_and!; [done | constructor |].
      constructor; [lia|]. eapply Forall_impl; [exact Hx|]. intros y Hy. simpl in Hy. lia.
Qed.

(** On a deque in ascending order, popping the stale front is removing
    every stale timestamp. *)
Lemma trim_filter ws q :
  StronglySorted Z.le q → trim ws q = filter (λ x, ws ≤ x) q.
Proof.
  induction 1 as [|x q Hq IH Hx]; [done|].
  simpl. rewrite filter_cons. case_bool_decide as Hlt.
  - rewrite decide_False by lia. done.
  - rewrite decide_True by lia. f_equal.
    symmetry. clear IH Hq. induction Hx as [|y q Hy Hx IH]; [done|].
    rewrite filter_cons, decide_True by lia. by rewrite IH.
Qed.

Lemma filter_none {A} (P : A → Prop) `{∀ x, Decision (P x)} (l : list A) :
  Forall (λ x, ¬ P x) l → filter P l = [].
Proof.
  induction 1 as [|x l Hx Hl IH]; [done|].
  by rewrite filter_cons, decide_False.
Qed.

Lemma in_window_app t xs ys : in_window t (xs ++ ys) = in_window t xs + in_window t ys.
Proof. unfold in_window. by rewrite filter_app, len_app. Qed.

Lemma in_window_le_len t xs : in_window t xs ≤ len xs.
Proof. unfold in_window, len. pose proof (length_filter (λ x, t - seconds 60 ≤ x ∧ x ≤ t) xs). lia. Qed.

Lemma in_window_stale t xs ws :
  ws ≤ t - seconds 60 → Forall (λ d, d < ws) xs → in_window t xs = 0.
Proof.
  intros Hws Hxs. unfold in_window. rewrite filter_none; [done|].
  eapply Forall_impl; [exact Hxs|]. intros x Hx. simpl in Hx. lia.
Qed.

Lemma is_allowed_cpm st now ip :
  calls_per_minute (is_allowed st now ip).1 = calls_per_minute st.
Proof. unfold is_allowed. by case_bool_decide. Qed.

Lemma init_inv cpm tmax ip : client_inv (init cpm) tmax [] ip.
Proof.
  exists []. simpl. rewrite lookup_empty. simpl.
  split_and!; [done | constructor | constructor | constructor |].
  intros t. unfold in_window. simpl. unfold len. simpl. lia.
Qed.

Lemma is_allowed_inv st tmax now ip0 (A : string → list Z) :
  tmax ≤ now →
  (∀ ip, client_inv st tmax (A ip) ip) →
  ∀ ip, client_inv (is_allowed st now ip0).1 now
          (if bool_decide (ip0 = ip) && (is_allowed st now ip0).2
           then A ip ++ [now] else A ip) ip.
Proof.
  intros Hmono Hinv ip.
  destruct (Hinv ip) as (D & HA & HD & Hle & Hsorted & Hwin).
  assert (HDnow : Forall (λ d, d < now - seconds 60) D).
  { eapply Forall_impl; [exact HD|]. intros d Hd. simpl in Hd. lia. }
  assert (Hlenow : Forall (λ x, x ≤ now) (A ip)).
  { eapply Forall_impl; [exact Hle|]. intros d Hd. simpl in Hd. lia. }
  unfold client_inv. rewrite is_allowed_cpm.
  destruct (decide (ip0 = ip)) as [->|Hne].
  2:{ rewrite bool_decide_eq_false_2 by done. simpl.
      replace (clients (is_allowed st now ip0).1 !! ip) with (clients st !! ip).
      { exists D. by split_and!. }
      unfold is_allowed. case_bool_decide; simpl; by rewrite lookup_insert_ne. }
  rewrite bool_decide_eq_true_2 by done. simpl.
  destruct (trim_split (now - seconds 60) _ Hsorted) as (D' & Hq & Hold & Hnew).
  set (q := default [] (clients st !! ip)) in *.
  set (q' := trim (now - seconds 60) q) in *.
  assert (Hq'sorted : StronglySorted Z.le q').
  { rewrite Hq in Hsorted. by apply StronglySorted_app_1_r in Hsorted. }
  assert (HA' : A ip = (D ++ D') ++ q') by (by rewrite <- app_assoc, <- Hq).
  assert (Hstale : Forall (λ d, d < now - seconds 60) (D ++ D'))
    by (by apply Forall_app).
  unfold is_allowed. fold q. fold q'. case_bool_decide as Hroom; simpl;
    rewrite lookup_insert_eq; simpl.
  - exists (D ++ D'). split_and!.
    + by rewrite HA', <- !app_assoc.
    + done.
    + apply Forall_app. split; [done|]. by repeat constructor.
    + apply StronglySorted_app_2; [|done|by repeat constructor].
      intros x1 x2 Hx1 Hx2. apply list_elem_of_singleton in Hx2 as ->.
      rewrite Forall_forall in Hlenow. apply Hlenow.
      rewrite HA'. apply elem_of_app. by right.
    + intros t. rewrite in_window_app.
      destruct (decide (t - seconds 60 ≤ now ∧ now ≤ t)) as [Hin|Hout].
      * rewrite HA', in_window_app.
        rewrite (in_window_stale t (D ++ D') (now - seconds 60)) by (done || lia).
        pose proof (in_window_le_len t q').
        pose proof (in_window_le_len t [now]). unfold len in *. simpl in *. lia.
      * specialize (Hwin t).
        assert (in_window t [now] = 0); [|lia].
        unfold in_window. rewrite filter_cons, decide_False by done. done.
  - exists (D ++ D'). by split_and!.
Qed.

Lemma run_inv calls : ∀ st tmax (A : string → list Z),
  (∀ ip, client_inv st tmax (A ip) ip) →
  StronglySorted Z.le (tmax :: calls.*1) →
  ∀ ip, client_inv (final st calls) (last_time tmax calls)
          (A ip ++ granted ip calls (run st calls)) ip.
Proof.
  induction calls as [|[now ip0] rest IH]; intros st tmax A Hinv Hsorted ip.
  - simpl. rewrite app_nil_r. apply Hinv.
  - apply StronglySorted_inv in Hsorted as [Hrest Hall].
    assert (Hmono : tmax ≤ now) by (by apply Forall_cons in Hall as [? _]).
    pose proof (is_allowed_inv st tmax now ip0 A Hmono Hinv) as Hstep.
    simpl. destruct (is_allowed st now ip0) as [st' ok] eqn:E. simpl in *.
    specialize (IH st' now _ Hstep Hrest ip). simpl in IH.
    unfold last_time in *. simpl.
    destruct (bool_decide (ip0 = ip) && ok); [|done].
    by rewrite <- app_assoc in IH.
Qed.

Lemma sorted_from_head (calls : list (Z * string)) :
  Sorted Z.le (calls.*1) →
  StronglySorted Z.le (match calls with [] => 0 | c :: _ => c.1 end :: calls.*1).
Proof.
  intros Hs. apply (Sorted_StronglySorted _) in Hs.
  destruct calls as [|c rest]; [by repeat constructor|].
  constructor; [done|]. constructor; [done|].
  simpl in Hs. by apply StronglySorted_inv in Hs as [_ ?].
Qed.

Lemma reachable_inv cpm calls ip :
  Sorted Z.le (calls.*1) →
  ∃ tmax, client_inv (final (init cpm) calls) tmax
            (granted ip calls (run (init cpm) calls)) ip.
Proof.
  intros Hs.
  exists (last_time (match calls with [] => 0 | c :: _ => c.1 end) calls).
  apply (run_inv calls (init cpm) _ (λ _, [])); [|by apply sorted_from_head].
  intros ip'. apply init_inv.
Qed.

Lemma final_cpm calls : ∀ st, calls_per_minute (final st calls) = calls_per_minute st.
Proof.
  induction calls as [|[now ip] rest IH]; intros st; [done|].
  unfold final in *. simpl. rewrite IH. apply is_allowed_cpm.
Qed.

(** C5.  With a clock that does not run backwards, whatever the calls and
    their timing: for every client and every instant [t], at most
    [calls_per_minute] of the client's calls made in the 60 seconds up to
    [t] were answered true.  And each call does this: it drops every
    timestamp of the client older than [now - 60s]; when fewer than
    [calls_per_minute] remain it records [now] and answers true; otherwise
    it answers false and records nothing. *)
Theorem rate_limit_window cpm calls :
  Sorted Z.le (calls.*1) →
  (∀ ip t,
     in_window t (granted ip calls (run (init cpm) calls)) ≤ Z.max 0 cpm)
  ∧ (∀ pre now ip post, calls = pre ++ (now, ip) :: post →
       let st := final (init cpm) pre in
       let kept :=
         filter (λ x, now - seconds 60 ≤ x) (default [] (clients st !! ip)) in
       is_allowed st now ip =
         if bool_decide (len kept < cpm)
         then (mk cpm (<[ip := kept ++ [now]]> (clients st)), true)
         else (mk cpm (<[ip := kept]> (clients st)), false)).
Proof.
  intros Hs. split.
  - intros ip t.
    destruct (reachable_inv cpm calls ip Hs) as (tmax & D & _ & _ & _ & _ & Hwin).
    specialize (Hwin t). by rewrite final_cpm in Hwin.
  - intros pre now ip post -> st kept.
    assert (Hpre : Sorted Z.le (pre.*1)).
    { rewrite fmap_app in Hs. apply (Sorted_StronglySorted _) in Hs.
      apply StronglySorted_app_1_l in Hs. by apply StronglySorted_Sorted. }
    destruct (reachable_inv cpm pre ip Hpre) as (tmax & D & _ & _ & _ & Hq & _).
    fold st in Hq. unfold is_allowed.
    rewrite (trim_filter _ _ Hq). fold kept.
    assert (Hcpm : calls_per_minute st = cpm) by apply final_cpm.
    by rewrite Hcpm.
Qed.

End RateLimiterFacts.

(** At ten calls a minute on a millisecond clock: twelve calls one second
    apart, the last two are refused. *)
Lemma rate_limit_window_witness :
  let calls := (λ n, (Z.of_nat n * 1000, "10.0.0.7"%string)) <$> seq 0 12 in
  Sorted Z.le (calls.*1)
  ∧ RateLimiter.run (H := Demo.runtime) (RateLimiter.init 10) calls
    = replicate 10 true ++ [false; false]
  ∧ ∀ t, RateLimiter.in_window (H := Demo.runtime) t
           (RateLimiter.granted "10.0.0.7" calls
              (RateLimiter.run (H := Demo.runtime) (RateLimiter.init 10) calls))
         ≤ 10.
Proof.
  intros calls.
  assert (Hs : Sorted Z.le (calls.*1)) by (cbn; repeat constructor; lia).
  split_and!; [done | by vm_compute |].
  intros t. apply (rate_limit_window (H := Demo.runtime) 10 calls Hs).
Defined.

(* ================================================================== *)
(** * Python dicts *)
(* ================================================================== *)

Section PyDictFacts.
Context {K V : Type} `{EqDecision K}.
Implicit Types (d : list (K * V)) (k : K) (v : V).

Lemma lookup_store_eq d k v : PyDict.lookup (PyDict.store d k v) k = Some v.
Proof.
  induction d as [|[k' v'] d IH]; simpl.
  - by rewrite bool_decide_eq_true_2.
  - case_bool_decide as E; simpl.
    + by rewrite bool_decide_eq_true_2.
    + by rewrite bool_decide_eq_false_2.
Qed.

Lemma lookup_store_ne d k k' v :
  k ≠ k' → PyDict.lookup (PyDict.store d k v) k' = PyDict.lookup d k'.
Proof.
  intros Hne. induction d as [|[k0 v0] d IH]; simpl.
  - by rewrite bool_decide_eq_false_2.
  - case_bool_decide as E; simpl.
    + subst k0. by rewrite !bool_decide_eq_false_2.
    + by rewrite IH.
Qed.

Lemma lookup_del_ne d k k' :
  k ≠ k' → PyDict.lookup (PyDict.del d k) k' = PyDict.lookup d k'.
Proof.
  intros Hne. induction d as [|[k0 v0] d IH]; simpl; [done|].
  case_bool_decide as E; simpl.
  - subst k0. by rewrite bool_decide_eq_false_2.
  - by rewrite IH.
Qed.

Lemma lookup_is_Some d k : is_Some (PyDict.lookup d k) ↔ k ∈ PyDict.keys d.
Proof.
  unfold PyDict.keys. induction d as [|[k0 v0] d IH]; simpl.
  - split; [by intros [? ?] | by intros ?%elem_of_nil].
  - rewrite elem_of_cons. case_bool_decide as E.
    + split; [by left | by eauto].
    + rewrite IH. split; [by right | by intros [?|?]].
Qed.

Lemma lookup_None d k : PyDict.lookup d k = None ↔ k ∉ PyDict.keys d.
Proof. rewrite <- lookup_is_Some, eq_None_not_Some. done. Qed.

Lemma keys_cons d k v : PyDict.keys ((k, v) :: d) = k :: PyDict.keys d.
Proof. done. Qed.

Lemma keys_del_subseteq d k x :
  x ∈ PyDict.keys (PyDict.del d k) → x ∈ PyDict.keys d.
Proof.
  induction d as [|[k0 v0] d IH]; simpl; [done|].
  rewrite keys_cons. case_bool_decide.
  - intros Hx. apply elem_of_cons. by right.
  - rewrite keys_cons, !elem_of_cons. intros [->|Hx]; [by left | right; by apply IH].
Qed.

Lemma NoDup_del d k : NoDup (PyDict.keys d) → NoDup (PyDict.keys (PyDict.del d k)).
Proof.
  induction d as [|[k0 v0] d IH]; simpl; [done|].
  rewrite keys_cons. intros [Hnotin Hd]%NoDup_cons. case_bool_decide; [done|].
  rewrite keys_cons. apply NoDup_cons. split; [|by apply IH].
  intros Hin. apply Hnotin. by apply (keys_del_subseteq d k).
Qed.

Lemma lookup_del_eq d k :
  NoDup (PyDict.keys d) → PyDict.lookup (PyDict.del d k) k = None.
Proof.
  induction d as [|[k0 v0] d IH]; simpl; [done|].
  rewrite keys_cons. intros [Hnotin Hd]%NoDup_cons. case_bool_decide as E; simpl.
  - subst k0. by apply lookup_None.
  - rewrite bool_decide_eq_false_2 by done. by apply IH.
Qed.

Lemma keys_store d k v :
  PyDict.keys (PyDict.store d k v) =
    match PyDict.lookup d k with
    | Some _ => PyDict.keys d
    | None => PyDict.keys d ++ [k]
    end.
Proof.
  induction d as [|[k0 v0] d IH]; simpl; [done|].
  case_bool_decide as E; [by subst|].
  rewrite !keys_cons, IH. by destruct (PyDict.lookup d k).
Qed.

Lemma NoDup_store d k v :
  NoDup (PyDict.keys d) → NoDup (PyDict.keys (PyDict.store d k v)).
Proof.
  intros Hd. rewrite keys_store. destruct (PyDict.lookup d k) eqn:E; [done|].
  apply NoDup_app. split_and!; [done| |apply NoDup_singleton].
  intros x Hx ->%list_elem_of_singleton. by apply lookup_None in E.
Qed.

Lemma length_store d k v :
  length (PyDict.store d k v) =
    match PyDict.lookup d k with
    | Some _ => length d
    | None => S (length d)
    end.
Proof.
  induction d as [|[k0 v0] d IH]; simpl; [done|].
  case_bool_decide as E; simpl; [done|].
  rewrite IH. by destruct (PyDict.lookup d k).
Qed.

Lemma length_del d k :
  length (PyDict.del d k) =
    match PyDict.lookup d k with
    | Some _ => pred (length d)
    | None => length d
    end.
Proof.
  induction d as [|[k0 v0] d IH]; simpl; [done|].
  case_bool_decide as E; simpl; [done|].
  rewrite IH. destruct (PyDict.lookup d k) eqn:El; [|done].
  by destruct d.
Qed.

Lemma length_keys d : length (PyDict.keys d) = length d.
Proof. apply length_fmap. Qed.
End PyDictFacts.

Lemma min_from_spec {A} (f : A → Z) (xs : list A) : ∀ best,
  let m := PyDict.min_from f best xs in
  m ∈ best :: xs ∧ f m ≤ f best ∧ Forall (λ y, f m ≤ f y) xs.
Proof.
  induction xs as [|x xs IH]; intros best; simpl.
  - split_and!; [by left | lia | constructor].
  - destruct (IH (if bool_decide (f x < f best) then x else best))
      as (Hin & Hle & Hall).
    apply elem_of_cons in Hin. case_bool_decide as Hlt.
    + split_and!; [|lia|constructor; [done|done]].
      destruct Hin as [->|Hin]; [right; by left | by do 2 right].
    + split_and!; [|lia|constructor; [lia|done]].
      destruct Hin as [->|Hin]; [by left | by do 2 right].
Qed.

(** [min] returns an element whose key is at most every other key. *)
Lemma min_by_spec {A} (f : A → Z) (xs : list A) (m : A) :
  PyDict.min_by f xs = Some m → m ∈ xs ∧ Forall (λ y, f m ≤ f y) xs.
Proof.
  destruct xs as [|x xs]; simpl; [done|]. intros [= <-].
  destruct (min_from_spec f xs x) as (Hin & Hle & Hall).
  split; [done|]. by constructor.
Qed.

Lemma min_by_is_Some {A} (f : A → Z) (xs : list A) :
  xs ≠ [] → is_Some (PyDict.min_by f xs).
Proof. destruct xs; [done | by eexists]. Qed.

(* ================================================================== *)
(** * ResponseCache: expiry and eviction *)
(* ================================================================== *)

Section ResponseCacheFacts.
Context `{Runtime}.
Import ResponseCache.

Lemma get_config st now prompt provider :
  max_size (get st now prompt provider).1 = max_size st
  ∧ ttl_seconds (get st now prompt provider).1 = ttl_seconds st.
Proof. unfold get. by repeat case_match. Qed.

Lemma get_wf st now prompt provider :
  wf st → wf (get st now prompt provider).1.
Proof.
  intros [Hnd Hlen]. unfold get.
  destruct (PyDict.lookup (cache st) _) as [[response timestamp]|] eqn:E; [|done].
  case_bool_decide; [done|]. split; simpl.
  - by apply NoDup_del.
  - unfold len in *. rewrite length_del, E. lia.
Qed.

Lemma set_spec st now prompt response provider :
  0 < max_size st → wf st →
  let key := _make_key prompt provider in
  ∃ st',
    set st now prompt response provider = Some st'
    ∧ wf st' ∧ max_size st' = max_size st ∧ ttl_seconds st' = ttl_seconds st
    ∧ PyDict.lookup (cache st') key = Some (response, now)
    ∧ (len (cache st) < max_size st →
         cache st' = PyDict.store (cache st) key (response, now))
    ∧ (len (cache st) = max_size st →
         ∃ oldest,
           oldest ∈ PyDict.keys (cache st)
           ∧ Forall (λ k, timestamp_of (cache st) oldest ≤ timestamp_of (cache st) k)
               (PyDict.keys (cache st))
           ∧ cache st' = PyDict.store (PyDict.del (cache st) oldest) key (response, now)).
Proof.
  intros Hpos [Hnd Hlen] key. unfold set. fold key.
  case_bool_decide as Hfull.
  - assert (Hne : PyDict.keys (cache st) ≠ []).
    { intros Hnil. apply (f_equal length) in Hnil.
      rewrite length_keys in Hnil. unfold len in *. simpl in Hnil. lia. }
    destruct (min_by_is_Some (timestamp_of (cache st)) _ Hne) as [oldest Hmin].
    rewrite Hmin. simpl.
    destruct (min_by_spec _ _ _ Hmin) as [Hin Hleast].
    assert (Hsome : is_Some (PyDict.lookup (cache st) oldest))
      by (by apply lookup_is_Some).
    destruct Hsome as [e He].
    eexists. split; [done|]. simpl. split_and!; try done.
    + split; simpl.
      * by apply NoDup_store, NoDup_del.
      * unfold len in *. rewrite length_store, length_del, He.
        destruct (PyDict.lookup _ key); lia.
    + apply lookup_store_eq.
    + lia.
    + intros _. by exists oldest.
  - simpl. eexists. split; [done|]. simpl. split_and!; try done.
    + split; simpl.
      * by apply NoDup_store.
      * unfold len in *. rewrite length_store.
        destruct (PyDict.lookup _ key); lia.
    + apply lookup_store_eq.
    + lia.
Qed.

Lemma step_wf st o : 0 < max_size st → wf st →
  wf (step st o) ∧ max_size (step st o) = max_size st
  ∧ ttl_seconds (step st o) = ttl_seconds st.
Proof.
  intros Hpos Hwf. destruct o as [now p pr|now p r pr]; simpl.
  - split; [by apply get_wf | apply get_config].
  - destruct (set_spec st now p r pr Hpos Hwf) as (st' & -> & ? & ? & ? & _).
    done.
Qed.

Lemma run_wf ops : ∀ st, 0 < max_size st → wf st →
  wf (run st ops) ∧ max_size (run st ops) = max_size st
  ∧ ttl_seconds (run st ops) = ttl_seconds st.
Proof.
  induction ops as [|o ops IH]; intros st Hpos Hwf; [done|].
  destruct (step_wf st o Hpos Hwf) as (Hwf' & Hms & Httl).
  simpl. fold (run (step st o) ops).
  destruct (IH (step st o)) as (? & ? & ?); [lia | done |].
  split_and!; [done | congruence | congruence].
Qed.

Lemma empty_wf max_size ttl : 0 ≤ max_size → wf (mk max_size ttl []).
Proof. intros Hpos. split; simpl; [constructor | unfold len; simpl; lia]. Qed.

(** C8.  With a positive capacity, after every sequence of [get] and [set]
    on an empty cache the number of entries is at most [max_size].  A [set]
    always returns; it leaves the new [(response, timestamp)] under its
    key, whatever was there; below capacity it evicts nothing; at capacity
    it first deletes an entry whose timestamp is least among all entries. *)
Theorem cache_size_bounded max_size ttl ops :
  0 < max_size →
  let st := run (mk max_size ttl []) ops in
  len (cache st) ≤ max_size
  ∧ ∀ now prompt response provider,
      let key := _make_key prompt provider in
      ∃ st',
        set st now prompt response provider = Some st'
        ∧ len (cache st') ≤ max_size
        ∧ PyDict.lookup (cache st') key = Some (response, now)
        ∧ (len (cache st) < max_size →
             cache st' = PyDict.store (cache st) key (response, now))
        ∧ (len (cache st) = max_size →
             ∃ oldest,
               oldest ∈ PyDict.keys (cache st)
               ∧ Forall (λ k, timestamp_of (cache st) oldest
                              ≤ timestamp_of (cache st) k)
                   (PyDict.keys (cache st))
               ∧ cache st' =
                   PyDict.store (PyDict.del (cache st) oldest) key (response, now)).
Proof.
  intros Hpos st.
  destruct (run_wf ops (mk max_size ttl [])) as (Hwf & Hms & Httl);
    [done | apply empty_wf; simpl; lia |].
  fold st in Hwf, Hms, Httl. simpl in Hms, Httl.
  split; [destruct Hwf as [_ Hlen]; by rewrite Hms in Hlen|].
  intros now prompt response provider key.
  destruct (set_spec st now prompt response provider) as
    (st' & Hset & [_ Hlen'] & Hms' & _ & Hlk & Hroom & Hfull); [lia | done |].
  exists st'. rewrite Hms in *. rewrite Hms' in Hlen'. by split_and!.
Qed.

Lemma set_inv st now prompt response provider st' :
  set st now prompt response provider = Some st' →
  max_size st' = max_size st ∧ ttl_seconds st' = ttl_seconds st
  ∧ PyDict.lookup (cache st') (_make_key prompt provider) = Some (response, now)
  ∧ (NoDup (PyDict.keys (cache st)) → NoDup (PyDict.keys (cache st'))).
Proof.
  unfold set. case_bool_decide.
  - destruct (PyDict.min_by _ _) as [oldest|]; simpl; [|done].
    intros [= <-]. simpl. split_and!; [done | done | apply lookup_store_eq |].
    intros Hnd. by apply NoDup_store, NoDup_del.
  - simpl. intros [= <-]. simpl.
    split_and!; [done | done | apply lookup_store_eq |].
    intros Hnd. by apply NoDup_store.
Qed.

Lemma run_NoDup ops : ∀ st,
  NoDup (PyDict.keys (cache st)) → NoDup (PyDict.keys (cache (run st ops))).
Proof.
  induction ops as [|o ops IH]; intros st Hnd; [done|].
  simpl. fold (run (step st o) ops). apply IH.
  destruct o as [now p pr|now p r pr]; simpl.
  - unfold get. repeat case_match; simpl; try done. by apply NoDup_del.
  - destruct (set st now p r pr) as [st'|] eqn:E; simpl; [|done].
    apply set_inv in E as (_ & _ & _ & Hnd'). by apply Hnd'.
Qed.

Lemma run_ttl ops : ∀ st, ttl_seconds (run st ops) = ttl_seconds st.
Proof.
  induction ops as [|o ops IH]; intros st; [done|].
  simpl. fold (run (step st o) ops). rewrite IH.
  destruct o as [n p pr|n p r pr]; simpl; [apply get_config|].
  destruct (set st n p r pr) as [s|] eqn:E; simpl; [|done].
  by apply set_inv in E as (_ & ? & _).
Qed.

Lemma get_fresh st now now' prompt response provider :
  PyDict.lookup (cache st) (_make_key prompt provider) = Some (response, now) →
  now' - now < seconds (ttl_seconds st) →
  get st now' prompt provider = (st, Some response).
Proof. intros Hlk Hfresh. unfold get. by rewrite Hlk, bool_decide_eq_true_2. Qed.

Lemma get_absent st now prompt provider :
  PyDict.lookup (cache st) (_make_key prompt provider) = None →
  get st now prompt provider = (st, None).
Proof. intros Hlk. unfold get. by rewrite Hlk. Qed.

(** C7.  In any state the cache can reach, once [set] has stored a response
    for a (prompt, provider) pair at time [now]: every [get] of the pair
    made while [now' - now < ttl_seconds] returns that response and changes
    nothing; a [get] made once [ttl_seconds] have elapsed returns nothing
    and deletes the entry on that read; from then on the pair is absent, so
    further reads return nothing and delete nothing, until a [set] stores
    the pair again, after which it is served again. *)
Theorem cache_hit_until_ttl max_size ttl ops now prompt response provider st' :
  let st := run (mk max_size ttl []) ops in
  let key := _make_key prompt provider in
  set st now prompt response provider = Some st' →
  (∀ now', now' - now < seconds ttl →
     get st' now' prompt provider = (st', Some response))
  ∧ (∀ now', seconds ttl ≤ now' - now →
       ∃ st'',
         get st' now' prompt provider = (st'', None)
         ∧ cache st'' = PyDict.del (cache st') key
         ∧ PyDict.lookup (cache st'') key = None
         ∧ (∀ now'', get st'' now'' prompt provider = (st'', None))
         ∧ (∀ now3 response3 st3,
              set st'' now3 prompt response3 provider = Some st3 →
              ∀ now4, now4 - now3 < seconds ttl →
                get st3 now4 prompt provider = (st3, Some response3))).
Proof.
  intros st key Hset.
  assert (Hnd : NoDup (PyDict.keys (cache st))).
  { apply run_NoDup. simpl. constructor. }
  destruct (set_inv _ _ _ _ _ _ Hset) as (_ & Httl' & Hlk & Hnd').
  specialize (Hnd' Hnd). fold st in Httl'. fold key in Hlk.
  assert (Hst' : ttl_seconds st' = ttl).
  { rewrite Httl'. apply (run_ttl ops (mk max_size ttl [])). }
  split.
  - intros now' Hfresh. apply (get_fresh st' now); [done | by rewrite Hst'].
  - intros now' Hstale.
    exists (mk (ResponseCache.max_size st') (ttl_seconds st')
               (PyDict.del (cache st') key)).
    assert (Hgone : PyDict.lookup (PyDict.del (cache st') key) key = None)
      by (by apply lookup_del_eq).
    split_and!.
    + unfold get. fold key. rewrite Hlk, Hst'.
      by rewrite bool_decide_eq_false_2 by lia.
    + done.
    + done.
    + intros now''. by apply get_absent.
    + intros now3 response3 st3 Hset3 now4 Hfresh.
      destruct (set_inv _ _ _ _ _ _ Hset3) as (_ & Httl3 & Hlk3 & _).
      apply (get_fresh st3 now3); [done|]. rewrite Httl3. simpl. by rewrite Hst'.
Qed.

End ResponseCacheFacts.

(** A capacity of two: the third key stored pushes out the oldest entry. *)
Lemma cache_size_bounded_witness :
  let st := ResponseCache.run (H := Demo.runtime) (ResponseCache.mk 2 300 [])
              [ResponseCache.OpSet 1000 "a" "reply a" "gemini";
               ResponseCache.OpSet 2000 "b" "reply b" "gemini";
               ResponseCache.OpSet 3000 "c" "reply c" "gemini"] in
  len (ResponseCache.cache st) ≤ 2
  ∧ (ResponseCache.get (H := Demo.runtime) st 3500 "a" "gemini").2 = None
  ∧ (ResponseCache.get (H := Demo.runtime) st 3500 "c" "gemini").2 = Some "reply c"%string.
Proof.
  intros st. split_and!; [|by vm_compute..].
  apply (cache_size_bounded (H := Demo.runtime) 2 300); lia.
Defined.

(** Stored at t = 1 s with a TTL of 300 s: served at 300.999 s, gone at 301 s. *)
Lemma cache_hit_until_ttl_witness :
  ∃ st',
    ResponseCache.set (H := Demo.runtime) ResponseCache.init 1000 "Hello " "Hi." "gemini"
      = Some st'
    ∧ ResponseCache.get (H := Demo.runtime) st' 300999 "hello" "gemini"
      = (st', Some "Hi."%string)
    ∧ (ResponseCache.get (H := Demo.runtime) st' 301000 "hello" "gemini").2 = None.
Proof.
  destruct (ResponseCache.set (H := Demo.runtime) ResponseCache.init 1000
              "Hello " "Hi." "gemini") as [st'|] eqn:E; [|by vm_compute in E].
  exists st'. split; [done|].
  destruct (cache_hit_until_ttl (H := Demo.runtime) 100 300 [] 1000 "Hello " "Hi."
              "gemini" st' E) as [Hhit Hmiss].
  split.
  - assert (Hk : ResponseCache._make_key (H := Demo.runtime) "hello" "gemini"
               = ResponseCache._make_key (H := Demo.runtime) "Hello " "gemini")
      by (by vm_compute).
    unfold ResponseCache.get. rewrite Hk.
    apply (Hhit 300999). by vm_compute.
  - injection E as <-. by vm_compute.
Defined.

(* ================================================================== *)
(** * ConversationStore: bounded history *)
(* ================================================================== *)

Section ConversationStoreFacts.
Context `{Runtime}.
Import ConversationStore.

Lemma purge_config st now :
  max_messages (_purge_expired st now) = max_messages st
  ∧ ttl_seconds (_purge_expired st now) = ttl_seconds st.
Proof. done. Qed.

(** Purging drops an expired session whole and leaves the others as
    they are. *)
Lemma purge_history st now sid :
  history (_purge_expired st now) sid =
    if expired (ttl_seconds st) now (history st sid) then [] else history st sid.
Proof.
  unfold history, _purge_expired. simpl. rewrite map_lookup_filter.
  destruct (_messages st !! sid) as [q|] eqn:E; simpl; [|done].
  case_guard as Hg; simpl in *.
  - by rewrite Hg.
  - by destruct (expired (ttl_seconds st) now q).
Qed.

Lemma add_history st now_purge now sid role content :
  history (add st now_purge now sid role content) sid =
    deque_append (max_messages st) (history (_purge_expired st now_purge) sid)
      (role, content, now).
Proof. unfold history at 1, add. simpl. by rewrite lookup_insert_eq. Qed.

Lemma add_history_ne st now_purge now sid sid' role content :
  sid ≠ sid' →
  history (add st now_purge now sid role content) sid' =
    history (_purge_expired st now_purge) sid'.
Proof. intros Hne. unfold history at 1, add. simpl. by rewrite lookup_insert_ne. Qed.

Lemma get_spec st now sid :
  get st now sid =
    (_purge_expired st now,
     (λ m : message, (m.1.1, m.1.2)) <$> history (_purge_expired st now) sid).
Proof. unfold get, history. by destruct (_ !! sid). Qed.

Lemma purge_bounded st now : bounded st → bounded (_purge_expired st now).
Proof.
  intros Hb sid. rewrite purge_history. simpl.
  destruct (expired _ _ _); [simpl; lia | apply Hb].
Qed.

Lemma step_bounded st o :
  bounded st → bounded (step st o) ∧ max_messages (step st o) = max_messages st
                ∧ ttl_seconds (step st o) = ttl_seconds st.
Proof.
  intros Hb. destruct o as [np n sid r c|n sid]; simpl.
  - split; [|done]. intros sid'. simpl.
    destruct (decide (sid = sid')) as [<-|Hne].
    + rewrite add_history. apply deque_append_length.
      by apply (purge_bounded st np).
    + rewrite add_history_ne by done. by apply (purge_bounded st np).
  - rewrite get_spec. simpl. split; [|done]. by apply purge_bounded.
Qed.

Lemma run_bounded ops : ∀ st,
  bounded st → bounded (run st ops) ∧ max_messages (run st ops) = max_messages st
                ∧ ttl_seconds (run st ops) = ttl_seconds st.
Proof.
  induction ops as [|o ops IH]; intros st Hb; [done|].
  destruct (step_bounded st o Hb) as (Hb' & Hm & Ht).
  simpl. fold (run (step st o) ops).
  destruct (IH _ Hb') as (? & ? & ?). split_and!; [done | congruence | congruence].
Qed.

(** C9, as amended.  After every sequence of [add] and [get] on an empty
    store no session holds more than [max_messages] turns.  Adding a turn to
    a session that has not expired appends it; when the session already
    holds [max_messages] turns, the single oldest turn is dropped and the
    others keep their order.  [get] returns the turns of the session in the
    order they are stored, oldest first. *)
Theorem history_bounded max_messages ttl ops :
  let st := run (mk max_messages ttl ∅) ops in
  (∀ sid, (length (history st sid) ≤ max_messages)%nat)
  ∧ (∀ now_purge now sid role content,
       expired ttl now_purge (history st sid) = false →
       history (add st now_purge now sid role content) sid =
         if bool_decide (length (history st sid) < max_messages)%nat
         then history st sid ++ [(role, content, now)]
         else if bool_decide (0 < max_messages)%nat
         then tail (history st sid) ++ [(role, content, now)]
         else [])
  ∧ (∀ now sid,
       (get st now sid).2 =
         (λ m : message, (m.1.1, m.1.2)) <$> history (_purge_expired st now) sid).
Proof.
  intros st.
  destruct (run_bounded ops (mk max_messages ttl ∅)) as (Hb & Hm & Ht).
  { intros sid. unfold history. simpl. rewrite lookup_empty. simpl. lia. }
  fold st in Hb, Hm, Ht. simpl in Hm, Ht.
  split_and!.
  - intros sid. specialize (Hb sid). by rewrite Hm in Hb.
  - intros now_purge now sid role content Hlive.
    rewrite add_history, purge_history, Ht, Hlive, Hm.
    specialize (Hb sid). rewrite Hm in Hb.
    case_bool_decide as Hroom; [by apply deque_append_room|].
    case_bool_decide as Hpos.
    + apply deque_append_full; [done | lia].
    + assert (max_messages = 0%nat) as -> by lia.
      destruct (history st sid); [done | simpl in Hb; lia].
  - intros now sid. by rewrite get_spec.
Qed.

End ConversationStoreFacts.

(** Fifty turns stored, the last one 24 s old: the next turn pushes out the
    first and the session still holds fifty. *)
Lemma history_bounded_witness :
  let st := ConversationStore.run (H := Demo.runtime) ConversationStore.init
              (Demo.chat "s1" 25) in
  let st' := ConversationStore.add (H := Demo.runtime) st 25000 25000
               "s1" "user" "one more" in
  length (ConversationStore.history st "s1") = 50%nat
  ∧ ConversationStore.history st' "s1" =
      tail (ConversationStore.history st "s1") ++ [("user", "one more", 25000)]%string
  ∧ length (ConversationStore.history st' "s1") = 50%nat.
Proof.
  intros st st'.
  assert (Hlen : length (ConversationStore.history st "s1") = 50%nat) by (by vm_compute).
  destruct (history_bounded (H := Demo.runtime) 50 3600 (Demo.chat "s1" 25))
    as (_ & Hadd & _).
  specialize (Hadd 25000 25000 "s1"%string "user"%string "one more"%string).
  change (ConversationStore.mk 50 3600 ∅) with ConversationStore.init in Hadd.
  fold st in Hadd. rewrite Hlen in Hadd.
  rewrite bool_decide_eq_false_2, bool_decide_eq_true_2 in Hadd by lia.
  assert (Hadd' := Hadd ltac:(by vm_compute)). fold st' in Hadd'.
  split_and!; [done | done |].
  rewrite Hadd', length_app, length_tl, Hlen. done.
Defined.

(** C9 fails as stated: a session holding fifty turns, left idle for more
    than an hour, is purged by the next [add]; the new turn is then the only
    one stored, where the claim has the forty-nine latest turns kept. *)
Lemma add_to_expired_session_drops_all :
  let st := ConversationStore.run (H := Demo.runtime) ConversationStore.init
              (Demo.chat "s1" 25) in
  let st' := ConversationStore.add (H := Demo.runtime) st 3700000 3700000
               "s1" "user" "back again" in
  length (ConversationStore.history st "s1") = 50%nat
  ∧ ConversationStore.history st' "s1" = [("user", "back again", 3700000)]%string
  ∧ ConversationStore.history st' "s1" ≠
      tail (ConversationStore.history st "s1") ++ [("user", "back again", 3700000)]%string.
Proof. by vm_compute. Qed.

(* ================================================================== *)
(** * DialogueView: when the cache is populated *)
(* ================================================================== *)

Section DialogueFacts.
Context `{Runtime}.

Lemma set_returns st now prompt response provider :
  0 < ResponseCache.max_size st →
  ∃ st', ResponseCache.set st now prompt response provider = Some st'
         ∧ ResponseCache.max_size st' = ResponseCache.max_size st
         ∧ ResponseCache.ttl_seconds st' = ResponseCache.ttl_seconds st
         ∧ PyDict.lookup (ResponseCache.cache st')
             (ResponseCache._make_key prompt provider) = Some (response, now).
Proof.
  intros Hpos. unfold ResponseCache.set. case_bool_decide as Hfull.
  - destruct (PyDict.min_by _ _) as [oldest|] eqn:Hmin; simpl.
    + eexists. split; [done|]. simpl. split_and!; [done..|apply lookup_store_eq].
    + destruct (ResponseCache.cache st); [|done].
      unfold len in Hfull. simpl in Hfull. lia.
  - simpl. eexists. split; [done|]. simpl. split_and!; [done..|apply lookup_store_eq].
Qed.

Lemma normalize_provider_cases provider :
  normalize_provider provider = "gemini"%string
  ∨ normalize_provider provider = "local"%string.
Proof.
  unfold normalize_provider. case_bool_decide as E; [|by left].
  destruct E as [->| ->]; auto.
Qed.

Import DialogueView.

Local Arguments RateLimiter.is_allowed : simpl never.
Local Arguments ResponseCache.get : simpl never.
Local Arguments ResponseCache.set : simpl never.
Local Arguments ConversationStore.add : simpl never.
Local Arguments MetricsTracker.record_request : simpl never.
Local Arguments Z.quot : simpl never.
Local Arguments Z.mul : simpl never.
Local Arguments Z.sub : simpl never.
Local Arguments PyDict.lookup : simpl never.

(** C6, as amended.  A request with non-empty text that the rate limiter
    admits and whose response is not served from the cache: when the
    chosen provider returns a response, [post] answers 200 with it and has
    stored it in the cache under the (prompt, provider) key before
    returning; when the provider fails, [post] answers 200 with the canned
    response tagged "fallback" and stores nothing: the cache is left as
    the lookup left it. *)
Theorem post_populates_cache out req w :
  let user_text := str_strip (text req) in
  let provider := normalize_provider (default DEFAULT_LLM_PROVIDER (provider req)) in
  let key := ResponseCache._make_key user_text provider in
  let present := PyDict.lookup (ResponseCache.cache (response_cache w)) key in
  let t_limit := clock w (1 + reads w) in
  let t_get := clock w (2 + reads w) in
  let t_set := clock w ((if present is Some _ then 3 else 2) + reads w) in
  let looked := ResponseCache.get (response_cache w) t_get user_text provider in
  let reply :=
    if bool_decide (provider = "local") then local_reply out else gemini_reply out in
  user_text ≠ ""%string →
  (RateLimiter.is_allowed (rate_limiter w) t_limit (client_ip req)).2 = true →
  (looked.2 = None ∨ looked.2 = Some ""%string) →
  0 < ResponseCache.max_size (response_cache w) →
  ∃ latency_ms sid w',
    match reply with
    | inr response_text =>
        run_M (post out req) w =
          (inr (Response200 response_text provider latency_ms sid), w')
        ∧ PyDict.lookup (ResponseCache.cache (response_cache w')) key
          = Some (response_text, t_set)
    | inl _ =>
        run_M (post out req) w =
          (inr (Response200 (fallback_reply out) "fallback" latency_ms sid), w')
        ∧ response_cache w' = looked.1
    end.
Proof.
  destruct w as [rl mt rc cs clk rd wr]. simpl.
  intros Htext Hok Hmiss Hpos.
  set (user_text := str_strip (text req)) in *.
  set (provider := normalize_provider _) in *.
  unfold post, rate_limiter_is_allowed. fold user_text. simpl.
  rewrite (bool_decide_eq_false_2 (user_text = ""%string)) by done. simpl.
  destruct (RateLimiter.is_allowed rl (clk (S rd)) (client_ip req))
    as [rl' ok] eqn:Erl.
  simpl in Hok. subst ok. simpl.
  unfold get_llm_response, response_cache_get, response_cache_set.
  fold provider. simpl.
  assert (Hcases : provider = "gemini"%string ∨ provider = "local"%string)
    by apply normalize_provider_cases.
  clearbody provider.
  assert (Hsrc : provider =
            if bool_decide (provider = "local") then "local"%string
            else "gemini"%string).
  { case_bool_decide; [done|]. by destruct Hcases. }
  destruct (PyDict.lookup (ResponseCache.cache rc)
              (ResponseCache._make_key user_text provider)) as [entry|] eqn:Elk.
  - (* the key is in the dict: [get] reads the clock *)
    simpl.
    destruct (ResponseCache.get rc (clk (S (S rd))) user_text provider)
      as [c r] eqn:Eget.
    assert (Hc : 0 < ResponseCache.max_size c).
    { pose proof (get_config rc (clk (S (S rd))) user_text provider) as [Hm _].
      rewrite Eget in Hm. simpl in Hm. lia. }
    simpl in Hmiss.
    assert (Hr : r = None ∨ r = Some ""%string) by done. clear Hmiss.
    destruct (bool_decide (provider = "local")) eqn:Eprov.
    + destruct (local_reply out) as [e|response_text] eqn:Ereply.
      * destruct Hr as [-> | ->]; simpl; by do 3 eexists.
      * destruct (set_returns c (clk (S (S (S rd)))) user_text response_text
                    provider Hc) as (c' & Hset & _ & _ & Hlk).
        destruct Hr as [-> | ->]; simpl; rewrite Hset; simpl;
          do 3 eexists; rewrite Hsrc at 1; (split; [reflexivity | exact Hlk]).
    + destruct (gemini_reply out) as [e|response_text] eqn:Ereply.
      * destruct Hr as [-> | ->]; simpl; by do 3 eexists.
      * destruct (set_returns c (clk (S (S (S rd)))) user_text response_text
                    provider Hc) as (c' & Hset & _ & _ & Hlk).
        destruct Hr as [-> | ->]; simpl; rewrite Hset; simpl;
          do 3 eexists; rewrite Hsrc at 1; (split; [reflexivity | exact Hlk]).
  - (* the key is not in the dict: [get] returns at once *)
    rewrite (get_absent rc (clk (S (S rd))) user_text provider Elk). simpl.
    destruct (bool_decide (provider = "local")) eqn:Eprov.
    + destruct (local_reply out) as [e|response_text] eqn:Ereply.
      * simpl. by do 3 eexists.
      * destruct (set_returns rc (clk (S (S rd))) user_text response_text
                    provider Hpos) as (c' & Hset & _ & _ & Hlk).
        simpl. rewrite Hset. simpl.
        do 3 eexists; rewrite Hsrc at 1; (split; [reflexivity | exact Hlk]).
    + destruct (gemini_reply out) as [e|response_text] eqn:Ereply.
      * simpl. by do 3 eexists.
      * destruct (set_returns rc (clk (S (S rd))) user_text response_text
                    provider Hpos) as (c' & Hset & _ & _ & Hlk).
        simpl. rewrite Hset. simpl.
        do 3 eexists; rewrite Hsrc at 1; (split; [reflexivity | exact Hlk]).
Qed.

End DialogueFacts.

(** The remote provider answers: the answer is returned and cached. *)
Lemma post_populates_cache_witness :
  let out := Demo.outside (inr "That sounds hard."%string) [] None in
  let req := DialogueView.mk_request "I feel anxious " "" None "" "10.0.0.7" in
  ∃ w',
    run_M (DialogueView.post (H := Demo.runtime) out req) (Demo.fresh (Demo.ticking 0 5))
    = (inr (DialogueView.Response200 "That sounds hard." "gemini" 15
              "0f8fad5bd9cb469fa16570867728950e"), w')
    ∧ PyDict.lookup (ResponseCache.cache (response_cache w'))
        (ResponseCache._make_key (H := Demo.runtime) "I feel anxious" "gemini")
      = Some ("That sounds hard."%string, 10).
Proof.
  intros out req.
  destruct (post_populates_cache (H := Demo.runtime) out req
              (Demo.fresh (Demo.ticking 0 5)))
    as (lat & sid & w' & Hrun & Hlk);
    [by vm_compute | by vm_compute | by left; vm_compute | by vm_compute |].
  exists w'. split; [|exact Hlk].
  rewrite Hrun. f_equal.
  assert (Hfst : (run_M (DialogueView.post (H := Demo.runtime) out req)
                    (Demo.fresh (Demo.ticking 0 5))).1
                 = inr (DialogueView.Response200 "That sounds hard." "gemini" 15
                          "0f8fad5bd9cb469fa16570867728950e")) by (by vm_compute).
  by rewrite Hrun in Hfst.
Defined.

(** C6 fails as stated: with the provider down, the request is answered by
    the canned responder and the cache, empty before, is empty after; the
    (prompt, response) pair has not been stored. *)
Lemma post_fallback_does_not_populate_cache :
  let out := Demo.outside (inl "No Gemini API key configured"%string) [] None in
  let req := DialogueView.mk_request "I feel anxious " "" None "" "10.0.0.7" in
  let res := run_M (DialogueView.post (H := Demo.runtime) out req)
               (Demo.fresh (Demo.ticking 0 5)) in
  res.1 = inr (DialogueView.Response200
                 "I'm here to listen. What feels most pressing?" "fallback" 10
                 "0f8fad5bd9cb469fa16570867728950e")
  ∧ ResponseCache.cache (response_cache res.2) = []
  ∧ PyDict.lookup (ResponseCache.cache (response_cache res.2))
      (ResponseCache._make_key (H := Demo.runtime) "I feel anxious" "gemini") = None.
Proof. by vm_compute. Qed.

(* ================================================================== *)
(** * The hand-off: every schedule delivers the same stream *)
(* ================================================================== *)

Section HandoffFacts.
Import Handoff.
Variable p : producer.

Lemma init_inv_handoff : inv p (init p).
Proof. exists []. by split_and!. Qed.

Lemma step_inv s s' : step p s s' → inv p s → inv p s'.
Proof.
  intros Hstep (waiting & Hchunks & Hsent & Hex & Hside).
  destruct Hstep; simpl in *.
  - exists (waiting ++ [c]). split_and!; [|done|done|].
    + by rewrite Hchunks, <- !app_assoc.
    + destruct sd as [| |r].
      * by rewrite Hside, fmap_app, !app_nil_r.
      * by destruct Hside as (_ & _ & ?).
      * by destruct Hside as (_ & _ & ? & _).
  - exists waiting. split_and!; [done..|].
    destruct sd as [| |r].
    + by rewrite Hside, app_nil_r.
    + by destruct Hside as (_ & _ & ?).
    + by destruct Hside as (_ & _ & ? & _).
  - destruct waiting as [|c' waiting]; simpl in Hside.
    { destruct ex; simplify_eq. }
    injection Hside as -> ->.
    exists waiting. simpl. split_and!.
    + rewrite Hchunks, <- !app_assoc. done.
    + by rewrite fmap_app, Hsent.
    + done.
    + done.
  - destruct waiting as [|c' waiting]; simpl in Hside; [|done].
    destruct ex; [|done]. injection Hside as ->.
    exists []. by split_and!.
  - destruct Hside as (-> & -> & _). exists []. by split_and!.
Qed.

Lemma rtc_inv s : rtc (step p) (init p) s → inv p s.
Proof.
  intros Hrtc. apply rtc_ind_r with (x := init p) (P := inv p) in Hrtc;
    eauto using init_inv_handoff, step_inv.
Qed.

(** A state that is not final can move. *)
Lemma progress s :
  inv p s → (∀ r, side s ≠ Finished r) → red (step p) s.
Proof.
  intros (waiting & Hchunks & Hsent & Hex & Hside) Hnf.
  destruct s as [pend ex q col out sd]. simpl in *.
  destruct sd as [| |r]; [| |by destruct (Hnf r)].
  - destruct q as [|[c|] q].
    + destruct ex.
      { by destruct waiting. }
      destruct pend as [|c rest]; eexists; constructor.
    + eexists. constructor.
    + eexists. constructor.
  - destruct Hside as (-> & -> & ->). rewrite Hex by done.
    eexists. constructor.
Qed.

Lemma step_fuel s s' : step p s s' → (fuel s' < fuel s)%nat.
Proof.
  destruct 1; unfold fuel; simpl; rewrite ?length_app; simpl;
    repeat case_match; lia.
Qed.

(** No schedule goes on for ever. *)
Lemma handoff_terminates s : sn (step p) s.
Proof.
  remember (fuel s) as n eqn:Hn. revert s Hn.
  induction n as [n IH] using lt_wf_ind. intros s ->.
  constructor. intros s' Hstep. apply (IH (fuel s')); [by apply step_fuel | done].
Qed.

(** A final state is the same in every schedule. *)
Lemma final_state s r :
  inv p s → side s = Finished r → s = drain p.
Proof.
  intros (waiting & Hchunks & Hsent & Hex & Hside) Hfin.
  destruct s as [pend ex q col out sd]. simpl in *. subst sd.
  destruct Hside as (-> & -> & -> & ->). rewrite Hex in * by done.
  rewrite !app_nil_r in Hchunks. subst col. by rewrite Hsent.
Qed.

(** Whatever the interleaving of the producer thread and the consumer
    loop, the hand-off can only stop in [drain p]: every fragment has been
    forwarded once, in the order the generator yielded them. *)
Lemma handoff_outcome s :
  rtc (step p) (init p) s → nf (step p) s → s = drain p.
Proof.
  intros Hrtc Hnf. pose proof (rtc_inv s Hrtc) as Hinv.
  destruct (side s) as [| |r] eqn:Hside.
  - destruct Hnf. apply progress; [done|]. intros r. by rewrite Hside.
  - destruct Hnf. apply progress; [done|]. intros r. by rewrite Hside.
  - by apply (final_state s r).
Qed.

Lemma drain_final : nf (step p) (drain p).
Proof. intros [s' Hstep]. inversion Hstep. Qed.

(** And some schedule does reach it. *)
Lemma handoff_completes : rtc (step p) (init p) (drain p).
Proof.
  assert (G : ∀ s, inv p s → ∃ s', rtc (step p) s s' ∧ nf (step p) s').
  { intros s. induction (handoff_terminates s) as [s _ IH]. intros Hinv.
    destruct (side s) as [| |r] eqn:Hside.
    - destruct (progress s Hinv) as [s' Hs']; [intros r; by rewrite Hside|].
      destruct (IH s' Hs' (step_inv _ _ Hs' Hinv)) as (s'' & Hrtc & Hnf).
      exists s''. split; [by eapply rtc_l | done].
    - destruct (progress s Hinv) as [s' Hs']; [intros r; by rewrite Hside|].
      destruct (IH s' Hs' (step_inv _ _ Hs' Hinv)) as (s'' & Hrtc & Hnf).
      exists s''. split; [by eapply rtc_l | done].
    - exists s. split; [done|].
      rewrite (final_state s r Hinv Hside). apply drain_final. }
  destruct (G (init p) init_inv_handoff) as (s' & Hrtc & Hnf).
  by rewrite <- (handoff_outcome s' Hrtc Hnf).
Qed.

End HandoffFacts.

(* ================================================================== *)
(** * StreamConsumer: the frames of an exchange *)
(* ================================================================== *)

Section EmitsFacts.
Context {A B : Type}.

Lemma emits_ret (a : A) w : emits (mret a) w (inr a) [].
Proof. split; simpl; [done | by rewrite app_nil_r]. Qed.

Lemma emits_raise e w : emits (raise (A := A) e) w (inl e) [].
Proof. split; simpl; [done | by rewrite app_nil_r]. Qed.

Lemma emits_bind (m : M A) (f : A → M B) w a r e1 e2 :
  emits m w (inr a) e1 → emits (f a) (run_M m w).2 r e2 →
  emits (m ≫= f) w r (e1 ++ e2).
Proof.
  intros [Hr Hw] [Hr' Hw']. unfold emits. simpl.
  destruct (run_M m w) as [[e|a'] w1]; simpl in *; [done|].
  injection Hr as ->. split; [done|]. by rewrite Hw', Hw, app_assoc.
Qed.

Lemma emits_bind_raise (m : M A) (f : A → M B) w e e1 :
  emits m w (inl e) e1 → emits (m ≫= f) w (inl e) e1.
Proof.
  intros [Hr Hw]. unfold emits. simpl.
  destruct (run_M m w) as [[e'|a'] w1]; simpl in *; [|done].
  by injection Hr as ->.
Qed.

Lemma emits_try_ok (m : M A) (h : string → M A) w a e1 :
  emits m w (inr a) e1 → emits (try_except m h) w (inr a) e1.
Proof.
  intros [Hr Hw]. unfold emits. simpl.
  destruct (run_M m w) as [[e'|a'] w1]; simpl in *; [done|].
  by injection Hr as ->.
Qed.

Lemma emits_try_except (m : M A) (h : string → M A) w e r e1 e2 :
  emits m w (inl e) e1 → emits (h e) (run_M m w).2 r e2 →
  emits (try_except m h) w r (e1 ++ e2).
Proof.
  intros [Hr Hw] [Hr' Hw']. unfold emits. simpl.
  destruct (run_M m w) as [[e'|a'] w1]; simpl in *; [|done].
  injection Hr as ->. split; [done|]. by rewrite Hw', Hw, app_assoc.
Qed.
End EmitsFacts.

Lemma emits_send e w : emits (send e) w (inr tt) [e].
Proof. done. Qed.

Lemma emits_for_each {A} (body : A → M unit) (f : A → event) (xs : list A) :
  (∀ x w, emits (body x) w (inr tt) [f x]) →
  ∀ w, emits (for_each xs body) w (inr tt) (f <$> xs).
Proof.
  intros Hbody. induction xs as [|x xs IH]; intros w; simpl.
  - apply emits_ret.
  - apply (emits_bind _ _ w tt _ [f x] (f <$> xs)); [apply Hbody | apply IH].
Qed.

Lemma emits_conversation_store_add `{Runtime} session_id role content w :
  emits (conversation_store_add session_id role content) w (inr tt) [].
Proof. split; simpl; [done | by rewrite app_nil_r]. Qed.

Section BridgeFacts.
Context `{Runtime}.
Import StreamConsumer.

Lemma emits_eq {A} (m : M A) w r e1 e2 :
  emits m w r e1 → e1 = e2 → emits m w r e2.
Proof. by intros ? <-. Qed.

(** Persisting the turn pair sends nothing. *)
Lemma emits_persist session_id user_text response w :
  emits (if bool_decide (session_id = ""%string) then mret tt
         else conversation_store_add session_id "user" user_text;;
              conversation_store_add session_id "assistant" response)
    w (inr tt) [].
Proof.
  case_bool_decide; [apply emits_ret|].
  eapply emits_eq.
  - eapply emits_bind; [apply emits_conversation_store_add|]. cbv beta.
    apply emits_conversation_store_add.
  - done.
Qed.

Lemma stream_llm_response_ok out user_text provider api_key session_id w :
  raises (llm_stream out) = None →
  emits (stream_llm_response out user_text provider api_key session_id) w
    (inr tt) (streamed provider (chunks (llm_stream out))).
Proof.
  intros Hok. unfold stream_llm_response. rewrite Hok.
  apply emits_try_ok. eapply emits_eq.
  - eapply emits_bind; [apply emits_send|]. cbv beta.
    eapply emits_bind; [apply (emits_for_each _ Token); intros; apply emits_send|].
    cbv beta. eapply emits_bind; [apply emits_ret|]. cbv beta.
    eapply emits_bind; [apply emits_send|]. cbv beta.
    apply emits_persist.
  - unfold streamed. simpl. by rewrite ?app_nil_r.
Qed.

Lemma stream_llm_response_raises out user_text provider api_key session_id w e :
  raises (llm_stream out) = Some e →
  emits (stream_llm_response out user_text provider api_key session_id) w
    (inl e) (Start provider :: (Token <$> chunks (llm_stream out))).
Proof.
  intros Hok. unfold stream_llm_response. rewrite Hok.
  eapply emits_eq.
  - eapply emits_try_except; [|apply emits_raise].
    eapply emits_bind; [apply emits_send|]. cbv beta.
    eapply emits_bind; [apply (emits_for_each _ Token); intros; apply emits_send|].
    cbv beta. apply emits_bind_raise. apply emits_raise.
  - simpl. by rewrite ?app_nil_r.
Qed.

Lemma stream_fallback_response_emits out user_text session_id w :
  emits (stream_fallback_response out user_text session_id) w (inr tt)
    (streamed "fallback" (fallback_tokens (fallback_reply out))).
Proof.
  unfold stream_fallback_response. eapply emits_eq.
  - cbv zeta. eapply emits_bind; [apply emits_send|]. cbv beta.
    eapply emits_bind.
    { apply (emits_for_each _
        (λ '(i, word), Token (word ++
           (if bool_decide (i < len (split_on " " (fallback_reply out)) - 1)
            then " " else ""))%string)).
      intros [i word] w'. apply emits_send. }
    cbv beta. eapply emits_bind; [apply emits_send|]. cbv beta.
    apply emits_persist.
  - unfold streamed, fallback_tokens. simpl. rewrite ?app_nil_r.
    do 2 f_equal. rewrite <- list_fmap_compose. apply list_fmap_ext.
    by intros ? [i word].
Qed.

Lemma stream_response_ok out user_text provider user_api_key session_id w :
  raises (llm_stream out) = None →
  emits (stream_response out user_text provider user_api_key session_id) w
    (inr tt) (streamed (normalize_provider provider) (chunks (llm_stream out))).
Proof.
  intros Hok. unfold stream_response. cbv zeta.
  apply emits_try_ok. by apply stream_llm_response_ok.
Qed.

Lemma stream_response_fallback out user_text provider user_api_key session_id w e :
  raises (llm_stream out) = Some e →
  emits (stream_response out user_text provider user_api_key session_id) w
    (inr tt)
    (fell_back (normalize_provider provider) (chunks (llm_stream out))
       (fallback_tokens (fallback_reply out))).
Proof.
  intros Hraises. unfold stream_response. cbv zeta. eapply emits_eq.
  - eapply emits_try_except; [by apply stream_llm_response_raises|].
    cbv beta. apply stream_fallback_response_emits.
  - done.
Qed.

(** A decoded frame with non-empty text is handed to [stream_response]. *)
Lemma receive_streams out data w evs :
  str_strip (text data) ≠ ""%string →
  emits (stream_response out (str_strip (text data))
           (default DEFAULT_LLM_PROVIDER (provider data)) (api_key data)
           (if bool_decide (session_id data = ""%string) then fresh_uuid out
            else session_id data)) w (inr tt) evs →
  emits (receive out (Some data)) w (inr tt) evs.
Proof.
  intros Htext Hs. unfold receive. apply emits_try_ok. cbv zeta.
  by rewrite bool_decide_eq_false_2.
Qed.

Lemma count_app f evs1 evs2 : count f (evs1 ++ evs2) = (count f evs1 + count f evs2)%nat.
Proof. unfold count. by rewrite List.filter_app, length_app. Qed.

Lemma count_tokens f frags :
  (∀ c, f (Token c) = false) → count f (Token <$> frags) = 0%nat.
Proof.
  intros Hf. unfold count. induction frags as [|c frags IH]; [done|].
  simpl. by rewrite Hf.
Qed.

Lemma last_streamed source frags : last (streamed source frags) = Some (Done source).
Proof. unfold streamed. by rewrite app_comm_cons, last_snoc. Qed.

Lemma streamed_counts source frags :
  count is_start (streamed source frags) = 1%nat
  ∧ count is_done (streamed source frags) = 1%nat
  ∧ count is_error (streamed source frags) = 0%nat.
Proof.
  unfold streamed.
  change (Start source :: (Token <$> frags) ++ [Done source])
    with ([Start source] ++ (Token <$> frags) ++ [Done source]).
  rewrite !count_app, !count_tokens by done. done.
Qed.

Lemma fell_back_shape source frags toks :
  last (fell_back source frags toks) = Some (Done "fallback")
  ∧ count is_start (fell_back source frags toks) = 2%nat
  ∧ count is_done (fell_back source frags toks) = 1%nat
  ∧ count is_error (fell_back source frags toks) = 0%nat.
Proof.
  destruct (streamed_counts "fallback" toks) as (Hs & Hd & He).
  unfold fell_back.
  change (Start source :: (Token <$> frags) ++ streamed "fallback" toks)
    with ([Start source] ++ (Token <$> frags) ++ streamed "fallback" toks).
  rewrite !count_app, !count_tokens, Hs, Hd, He by done.
  split_and!; [|done..].
  rewrite !last_app, last_streamed. done.
Qed.

End BridgeFacts.

Section StreamingClaims.
Context `{Runtime}.
Import StreamConsumer.

(** C3.  The generator yields "Hel", "lo", " wor", "ld" and stops without
    failure.  Whatever the interleaving of the producer thread and the
    consumer loop, the hand-off ends having forwarded exactly these four
    fragments, once each and in this order; and the exchange sends the
    client exactly: start, token "Hel", token "lo", token " wor",
    token "ld", done, with no error frame, through [stream_response] and
    through [receive] alike. *)
Theorem stream_delivers_fragments_in_order
    gemini local canned uuid user_text provider user_api_key session_id w :
  let p := mk_producer ["Hel"; "lo"; " wor"; "ld"]%string None in
  let out := mk_outside gemini local p canned uuid in
  let source := normalize_provider provider in
  (∀ s, rtc (Handoff.step p) (Handoff.init p) s → nf (Handoff.step p) s →
     Handoff.side s = Handoff.Finished None
     ∧ Handoff.collected s = ["Hel"; "lo"; " wor"; "ld"]%string
     ∧ Handoff.sent s = [Token "Hel"; Token "lo"; Token " wor"; Token "ld"])
  ∧ rtc (Handoff.step p) (Handoff.init p) (Handoff.drain p)
  ∧ emits (stream_response out user_text provider user_api_key session_id) w
      (inr tt)
      [Start source; Token "Hel"; Token "lo"; Token " wor"; Token "ld";
       Done source]
  ∧ ∀ data, str_strip (text data) ≠ ""%string →
      let source' :=
        normalize_provider (default DEFAULT_LLM_PROVIDER (StreamConsumer.provider data)) in
      emits (receive out (Some data)) w (inr tt)
        [Start source'; Token "Hel"; Token "lo"; Token " wor"; Token "ld";
         Done source'].
Proof.
  intros p out source. split_and!.
  - intros s Hrtc Hnf. by rewrite (handoff_outcome p s Hrtc Hnf).
  - apply handoff_completes.
  - by apply (stream_response_ok out).
  - intros data Htext source'. apply receive_streams; [done|].
    by apply (stream_response_ok out).
Qed.

(** C4.  The generator raises, before its first fragment or after some.
    Whatever the interleaving, the hand-off ends with the fragments yielded
    so far forwarded in order and the exception re-raised to the bridge.
    The exchange then returns normally having sent: the provider's start,
    those tokens, the fallback's start, the canned response as tokens, and
    one done tagged "fallback", which is the last frame; there is exactly
    one done frame, no error frame, and two start frames.  The same holds
    when the exchange enters through [receive]. *)
Theorem producer_failure_falls_back
    out user_text provider user_api_key session_id w e :
  raises (llm_stream out) = Some e →
  let p := llm_stream out in
  let toks := fallback_tokens (fallback_reply out) in
  let shape evs :=
    last evs = Some (Done "fallback")
    ∧ count is_start evs = 2%nat
    ∧ count is_done evs = 1%nat
    ∧ count is_error evs = 0%nat in
  (∀ s, rtc (Handoff.step p) (Handoff.init p) s → nf (Handoff.step p) s →
     Handoff.side s = Handoff.Finished (Some e)
     ∧ Handoff.sent s = Token <$> chunks p)
  ∧ (∃ evs,
       emits (stream_response out user_text provider user_api_key session_id) w
         (inr tt) evs
       ∧ evs = Start (normalize_provider provider) :: (Token <$> chunks p)
               ++ Start "fallback" :: (Token <$> toks) ++ [Done "fallback"]
       ∧ shape evs)
  ∧ (∀ data, str_strip (text data) ≠ ""%string →
       ∃ evs, emits (receive out (Some data)) w (inr tt) evs ∧ shape evs).
Proof.
  intros Hraises p toks shape. split_and!.
  - intros s Hrtc Hnf. rewrite (handoff_outcome p s Hrtc Hnf). simpl.
    unfold p. by rewrite Hraises.
  - eexists. split; [by apply (stream_response_fallback out _ _ _ _ _ e)|].
    split; [done|]. apply fell_back_shape.
  - intros data Htext. eexists. split.
    + apply receive_streams; [done|].
      by apply (stream_response_fallback out _ _ _ _ _ e).
    + apply fell_back_shape.
Qed.

End StreamingClaims.

(** The four fragments on a fresh connection, default provider. *)
Lemma stream_delivers_fragments_in_order_witness :
  let out := Demo.outside (inl "unused"%string) ["Hel"; "lo"; " wor"; "ld"]%string None in
  let data := StreamConsumer.mk_request " hello there " "" None "" in
  str_strip (Runtime := Demo.runtime) (StreamConsumer.text data) ≠ ""%string
  ∧ wire (run_M (StreamConsumer.receive (H := Demo.runtime) out (Some data))
            (Demo.fresh (Demo.ticking 0 5))).2
    = [Start "gemini"; Token "Hel"; Token "lo"; Token " wor"; Token "ld";
       Done "gemini"].
Proof.
  intros out data.
  assert (Htext : str_strip (Runtime := Demo.runtime) (StreamConsumer.text data)
                  ≠ ""%string) by (by vm_compute).
  split; [exact Htext|].
  destruct (stream_delivers_fragments_in_order (H := Demo.runtime)
              (inl "unused"%string) (inl "connection refused"%string)
              "I'm here to listen. What feels most pressing?"
              "0f8fad5bd9cb469fa16570867728950e" "" "" "" ""
              (Demo.fresh (Demo.ticking 0 5)))
    as (_ & _ & _ & Hreceive).
  destruct (Hreceive data Htext) as [_ Hwire]. exact Hwire.
Defined.

(** The generator fails after "Hel": the canned response follows. *)
Lemma producer_failure_falls_back_witness :
  let out := Demo.outside (inl "unused"%string) ["Hel"]%string (Some "503"%string) in
  wire (run_M (StreamConsumer.stream_response (H := Demo.runtime) out
                 "hello there" "" "" "s1") (Demo.fresh (Demo.ticking 0 5))).2
  = [Start "gemini"; Token "Hel"; Start "fallback"; Token "I'm "; Token "here ";
     Token "to "; Token "listen. "; Token "What "; Token "feels "; Token "most ";
     Token "pressing?"; Done "fallback"].
Proof.
  intros out.
  destruct (producer_failure_falls_back (H := Demo.runtime) out "hello there"
              "" "" "s1" (Demo.fresh (Demo.ticking 0 5)) "503" eq_refl)
    as (_ & (evs & [_ Hwire] & -> & _) & _).
  exact Hwire.
Defined.


(* ================================================================== *)
(** * RateLimiter: what holds whatever the clock does *)
(* ================================================================== *)

Section RateLimiterMore.
Context `{Runtime}.
Import RateLimiter.

Lemma trim_length ws q : (length (trim ws q) ≤ length q)%nat.
Proof.
  induction q as [|ts q IH]; simpl; [done|].
  case_bool_decide; simpl; lia.
Qed.

Lemma trim_all_stale ws q : Forall (λ ts, ts < ws) q → trim ws q = [].
Proof.
  induction 1 as [|ts q Hts Hq IH]; simpl; [done|].
  by rewrite bool_decide_eq_true_2.
Qed.

(** The deque of [ip] after a call of [ip0]. *)
Lemma is_allowed_clients st now ip0 ip :
  default [] (clients (is_allowed st now ip0).1 !! ip) =
    if bool_decide (ip0 = ip) then
      let q := trim (now - seconds 60) (default [] (clients st !! ip)) in
      if bool_decide (len q < calls_per_minute st) then q ++ [now] else q
    else default [] (clients st !! ip).
Proof.
  destruct (decide (ip0 = ip)) as [->|Hne].
  - rewrite bool_decide_eq_true_2 by done. unfold is_allowed. cbv zeta.
    case_bool_decide; simpl; by rewrite lookup_insert_eq.
  - rewrite bool_decide_eq_false_2 by done. unfold is_allowed.
    case_bool_decide; simpl; by rewrite lookup_insert_ne.
Qed.

Lemma final_snoc st calls now ip :
  final st (calls ++ [(now, ip)]) = (is_allowed (final st calls) now ip).1.
Proof. unfold final. by rewrite foldl_snoc. Qed.

(** X1.  The timestamps kept for a client never outnumber the limit, with any
    clock, so the memory held per client is bounded. *)
Theorem limiter_queue_bounded cpm calls ip :
  len (default [] (clients (final (init cpm) calls) !! ip)) ≤ Z.max 0 cpm.
Proof.
  induction calls as [|[now ip0] calls IH] using rev_ind.
  - simpl. rewrite lookup_empty. simpl. unfold len. simpl. lia.
  - rewrite final_snoc, is_allowed_clients, final_cpm. simpl.
    case_bool_decide as Hip; [|done]. cbv zeta.
    pose proof (trim_length (now - seconds 60)
                  (default [] (clients (final (init cpm) calls) !! ip))) as Hlen.
    case_bool_decide as Hroom.
    + rewrite len_app. unfold len in *. simpl. lia.
    + unfold len in *. lia.
Qed.

Lemma calls_of_snoc ip calls now ip0 :
  calls_of ip (calls ++ [(now, ip0)]) =
    (calls_of ip calls + (if bool_decide (ip0 = ip) then 1 else 0))%nat.
Proof.
  unfold calls_of. rewrite filter_app, length_app. f_equal.
  rewrite filter_cons. simpl. case_bool_decide as Hip; simpl.
  - by rewrite decide_True.
  - by rewrite decide_False.
Qed.

Lemma queue_le_calls cpm calls ip :
  (length (default [] (clients (final (init cpm) calls) !! ip)) ≤ calls_of ip calls)%nat.
Proof.
  induction calls as [|[now ip0] calls IH] using rev_ind.
  - simpl. rewrite lookup_empty. simpl. lia.
  - rewrite final_snoc, is_allowed_clients, calls_of_snoc.
    case_bool_decide as Hip; [|lia]. cbv zeta.
    pose proof (trim_length (now - seconds 60)
                  (default [] (clients (final (init cpm) calls) !! ip))) as Hlen.
    case_bool_decide; rewrite ?length_app; simpl; lia.
Qed.

(** X2.  A client that has made fewer than [calls_per_minute] calls so far is
    admitted, whenever it calls and whatever the other clients did: the
    first [calls_per_minute] calls of a client are never refused. *)
Theorem first_calls_allowed cpm calls now ip :
  Z.of_nat (calls_of ip calls) < cpm →
  (is_allowed (final (init cpm) calls) now ip).2 = true.
Proof.
  intros Hfew. unfold is_allowed. rewrite final_cpm. simpl.
  pose proof (queue_le_calls cpm calls ip) as Hq.
  pose proof (trim_length (now - seconds 60)
                (default [] (clients (final (init cpm) calls) !! ip))) as Hlen.
  rewrite bool_decide_eq_true_2; [done|]. unfold len. lia.
Qed.

(** X3.  Once every timestamp on record for a client is more than 60 seconds
    old, its next call is admitted (for a positive limit) and the record of
    the client becomes that call alone. *)
Theorem quiet_minute_readmits st now ip :
  0 < calls_per_minute st →
  Forall (λ ts, ts < now - seconds 60) (default [] (clients st !! ip)) →
  is_allowed st now ip =
    (mk (calls_per_minute st) (<[ip := [now]]> (clients st)), true).
Proof.
  intros Hpos Hstale. unfold is_allowed.
  rewrite (trim_all_stale _ _ Hstale). simpl.
  rewrite bool_decide_eq_true_2; [done|]. unfold len. simpl. lia.
Qed.

(** X4.  Clients are limited independently: a call of another client changes
    neither the record of [ip] nor the answer [ip] gets next. *)
Theorem clients_independent st now' ip' now ip :
  ip' ≠ ip →
  clients (is_allowed st now' ip').1 !! ip = clients st !! ip
  ∧ (is_allowed (is_allowed st now' ip').1 now ip).2 = (is_allowed st now ip).2.
Proof.
  intros Hne.
  assert (Hsame : clients (is_allowed st now' ip').1 !! ip = clients st !! ip).
  { unfold is_allowed. case_bool_decide; simpl; by rewrite lookup_insert_ne. }
  split; [done|].
  unfold is_allowed at 1 3. rewrite Hsame, is_allowed_cpm.
  by case_bool_decide.
Qed.

(** X5.  No client is ever forgotten: the clients on record are those on record
    at the start together with every caller since, admitted or refused.
    Entries are never removed, so the table grows with the number of
    distinct client identities seen. *)
Theorem clients_never_removed st calls :
  dom (clients (final st calls)) = dom (clients st) ∪ list_to_set (calls.*2).
Proof.
  induction calls as [|[now0 ip0] calls IH] using rev_ind.
  - simpl. by rewrite (right_id_L ∅ (∪)).
  - rewrite final_snoc.
    assert (Hdom : dom (clients (is_allowed (final st calls) now0 ip0).1)
                   = {[ip0]} ∪ dom (clients (final st calls))).
    { unfold is_allowed. case_bool_decide; simpl; by rewrite dom_insert_L. }
    rewrite Hdom, IH, fmap_app, list_to_set_app_L. simpl.
    rewrite (right_id_L ∅ (∪)), (comm_L (∪) {[ip0]}). by rewrite (assoc_L (∪)).
Qed.

End RateLimiterMore.

(** Ten calls a minute: a client that has called nine times is admitted. *)
Lemma first_calls_allowed_witness :
  let calls := (λ n, (1000, "10.0.0.7"%string)) <$> seq 0 9 in
  (RateLimiter.is_allowed (H := Demo.runtime)
     (RateLimiter.final (H := Demo.runtime) (RateLimiter.init 10) calls)
     1000 "10.0.0.7").2 = true.
Proof.
  intros calls.
  apply (first_calls_allowed (H := Demo.runtime) 10 calls 1000 "10.0.0.7").
  by vm_compute.
Defined.

(** A record of two timestamps, both more than a minute old. *)
Lemma quiet_minute_readmits_witness :
  let st := RateLimiter.mk 2 {["10.0.0.7"%string := [1000; 2000]]} in
  RateLimiter.is_allowed (H := Demo.runtime) st 62001 "10.0.0.7"
  = (RateLimiter.mk 2 {["10.0.0.7"%string := [62001]]}, true).
Proof.
  intros st.
  rewrite (quiet_minute_readmits (H := Demo.runtime) st 62001 "10.0.0.7").
  - unfold st. simpl. by rewrite insert_singleton_eq.
  - simpl. lia.
  - unfold st. simpl. rewrite lookup_singleton_eq. simpl.
    repeat constructor; unfold seconds; simpl; lia.
Defined.

Lemma clients_independent_witness :
  let st := RateLimiter.init 1 in
  (RateLimiter.is_allowed (H := Demo.runtime)
     (RateLimiter.is_allowed (H := Demo.runtime) st 0 "10.0.0.8").1 5 "10.0.0.7").2
  = true.
Proof.
  intros st.
  destruct (clients_independent (H := Demo.runtime) st 0 "10.0.0.8" 5 "10.0.0.7")
    as [_ ->]; [done | by vm_compute].
Defined.

(** The bound of the sliding window needs a clock that does not step back:
    with two calls a minute and the readings 100 s, 200 s, 150 s, 261 s,
    151 s, all five calls are admitted, three of them (100 s, 150 s, 151 s)
    within the 60 seconds up to 151 s. *)
Example backward_clock_breaks_window :
  let calls := [(100000, "10.0.0.7"); (200000, "10.0.0.7"); (150000, "10.0.0.7");
                (261000, "10.0.0.7"); (151000, "10.0.0.7")]%string in
  let oks := RateLimiter.run (H := Demo.runtime) (RateLimiter.init 2) calls in
  oks = [true; true; true; true; true]
  ∧ RateLimiter.in_window (H := Demo.runtime) 151000
      (RateLimiter.granted "10.0.0.7" calls oks) = 3
  ∧ ¬ Sorted Z.le (calls.*1).
Proof.
  split_and!; [by vm_compute | by vm_compute |].
  intros Hs. apply (Sorted_StronglySorted _) in Hs. simpl in Hs.
  apply StronglySorted_inv in Hs as [Hs _].
  apply StronglySorted_inv in Hs as [_ Hall].
  apply Forall_cons in Hall as [? _]. lia.
Qed.


(* ================================================================== *)
(** * MetricsTracker: the latency window and the snapshot *)
(* ================================================================== *)

Section MetricsTrackerMore.
Import MetricsTracker.

Lemma run_snoc st ops o : run st (ops ++ [o]) = step (run st ops) o.
Proof. unfold run. by rewrite foldl_snoc. Qed.

Lemma deque_append_drop {A} (m : nat) (rec : list A) (x : A) :
  deque_append m (drop (length rec - m) rec) x =
    drop (length (rec ++ [x]) - m) (rec ++ [x]).
Proof.
  unfold deque_append. rewrite !length_app, length_drop. simpl.
  destruct (decide (length rec < m)%nat) as [Hlt|Hge].
  - rewrite bool_decide_eq_false_2 by lia.
    replace (length rec - m)%nat with 0%nat by lia.
    replace (length rec + 1 - m)%nat with 0%nat by lia. done.
  - rewrite bool_decide_eq_true_2 by lia.
    replace (length rec + 1 - m)%nat with (length rec - m + 1)%nat by lia.
    rewrite <- (drop_drop (rec ++ [x]) 1 (length rec - m)).
    rewrite (drop_app_le rec [x]) by lia.
    by destruct (drop (length rec - m) rec ++ [x]).
Qed.

(** X6.  The latency window holds the most recent [maxlen] of the latencies
    recorded, oldest first: older samples are the ones dropped. *)
Theorem latencies_most_recent ops :
  latencies (run init ops) =
    drop (length (recorded ops) - maxlen) (recorded ops).
Proof.
  induction ops as [|o ops IH] using rev_ind; [done|].
  rewrite run_snoc. unfold recorded in *. rewrite omap_app.
  destruct o as [l src| |].
  - simpl. rewrite record_request_latencies, IH. apply deque_append_drop.
  - simpl. by rewrite app_nil_r.
  - rewrite step_get_metrics. simpl. by rewrite app_nil_r.
Qed.

(** X7.  The counters count: the total is the number of requests recorded, the
    rate-limited counter the number of rate-limit records. *)
Theorem counters_count_operations ops :
  total_requests (run init ops) = Z.of_nat (length (recorded ops))
  ∧ rate_limited_requests (run init ops) = Z.of_nat (rate_limits ops).
Proof.
  induction ops as [|o ops [IHt IHr]] using rev_ind; [done|].
  rewrite run_snoc. unfold recorded, rate_limits in *.
  rewrite omap_app, List.filter_app, !length_app.
  destruct o as [l src| |].
  - simpl. rewrite record_request_total, record_request_rate_limited. lia.
  - simpl. lia.
  - rewrite step_get_metrics. simpl. lia.
Qed.

Lemma sorted_lookup_le (l : list Z) i j a b :
  StronglySorted Z.le l → l !! i = Some a → l !! j = Some b → (i ≤ j)%nat → a ≤ b.
Proof.
  intros Hs. revert i j. induction Hs as [|x l Hs IH Hx]; intros i j Hi Hj Hij.
  - by rewrite lookup_nil in Hi.
  - destruct i as [|i], j as [|j]; simpl in *; simplify_eq; [lia| |lia|].
    + rewrite Forall_forall in Hx. apply Hx. by eapply list_elem_of_lookup_2.
    + eapply IH; eauto. lia.
Qed.

(** [get_metrics] returns on a tracker the operations can produce. *)
Lemma get_metrics_is_Some ops :
  ∃ snap, get_metrics (run init ops) = Some (run init ops, snap).
Proof.
  unfold get_metrics.
  assert (Hlen : (length (latencies (run init ops)) ≤ maxlen)%nat).
  { apply run_latencies_bounded. simpl. lia. }
  destruct (latencies (run init ops)) as [|x lats] eqn:E; [by eexists|].
  rewrite <- E in *.
  destruct (percentiles_spec (latencies (run init ops))) as (m & p & -> & _);
    [by rewrite E | done |].
  by eexists.
Qed.

(** X8.  [get_metrics] returns on every tracker the operations can produce; it
    leaves the tracker as it is and copies the five counters.  With no
    sample both percentiles are 0; otherwise both are samples of the window
    and the median is at most the 95th percentile. *)
Theorem get_metrics_returns ops :
  let st := run init ops in
  ∃ snap,
    get_metrics st = Some (st, snap)
    ∧ s_total_requests snap = total_requests st
    ∧ s_gemini_requests snap = gemini_requests st
    ∧ s_local_requests snap = local_requests st
    ∧ s_fallback_requests snap = fallback_requests st
    ∧ s_rate_limited_requests snap = rate_limited_requests st
    ∧ match latencies st with
      | [] => latency_median_ms snap = 0 ∧ latency_p95_ms snap = 0
      | _ => latency_median_ms snap ∈ latencies st
             ∧ latency_p95_ms snap ∈ latencies st
             ∧ latency_median_ms snap ≤ latency_p95_ms snap
      end.
Proof.
  intros st.
  assert (Hlen : (length (latencies st) ≤ maxlen)%nat).
  { apply run_latencies_bounded. simpl. lia. }
  destruct (latencies st) as [|x lats] eqn:Elats.
  - eexists. unfold get_metrics. rewrite Elats. simpl. by split_and!.
  - rewrite <- Elats in *.
    assert (Hne : latencies st ≠ []) by (by rewrite Elats).
    destruct (percentiles_spec _ Hne Hlen) as (median & p95 & Hp & Hm & H95).
    eexists. unfold get_metrics. rewrite Hp. simpl.
    split; [done|]. do 5 (split; [done|]). simpl.
    assert (Hpos : (0 < length (latencies st))%nat) by (rewrite Elats; simpl; lia).
    rewrite Elats at 1. rewrite <- Elats. split_and!.
    + rewrite <- (sorted_Permutation (latencies st)).
      by eapply list_elem_of_lookup_2.
    + rewrite <- (sorted_Permutation (latencies st)).
      by eapply list_elem_of_lookup_2.
    + eapply (sorted_lookup_le (sorted (latencies st))); [|exact Hm|exact H95|].
      * apply (Sorted_StronglySorted _), sorted_Sorted.
      * generalize dependent (length (latencies st)). intros n _ _ _ Hpos.
        apply Nat.min_glb; [|assert (n / 2 < n)%nat by (apply Nat.div_lt; lia); lia].
        apply Nat2Z.inj_le. rewrite !Nat2Z.inj_div, Nat2Z.inj_mul.
        change (Z.of_nat 2) with 2. change (Z.of_nat 95) with 95.
        change (Z.of_nat 100) with 100.
        apply Z.div_le_lower_bound; [lia|].
        pose proof (Z.mul_div_le (Z.of_nat n) 2). lia.
Qed.

(** X9.  The metrics endpoint never fails on a tracker the operations can
    produce, and reading the metrics changes nothing in the process. *)
Theorem metrics_view_returns w ops :
  metrics_tracker w = run init ops →
  ∃ snap, run_M MetricsView.get w = (inr snap, w)
          ∧ get_metrics (metrics_tracker w) = Some (metrics_tracker w, snap).
Proof.
  intros Hw. destruct (get_metrics_is_Some ops) as (snap & Hget).
  exists snap. unfold MetricsView.get. simpl. rewrite Hw, Hget.
  split; [|done]. f_equal. destruct w. simpl in *. by rewrite Hw.
Qed.

End MetricsTrackerMore.

Lemma metrics_view_returns_witness :
  ∃ snap,
    run_M MetricsView.get (Demo.fresh (Demo.ticking 0 5))
    = (inr snap, Demo.fresh (Demo.ticking 0 5))
    ∧ MetricsTracker.latency_median_ms snap = 0.
Proof.
  destruct (metrics_view_returns (Demo.fresh (Demo.ticking 0 5)) [] eq_refl)
    as (snap & Hrun & Hget).
  exists snap. split; [done|]. vm_compute in Hget. by injection Hget as <-.
Defined.


(* ================================================================== *)
(** * ResponseCache: what a lookup can return *)
(* ================================================================== *)

Section ResponseCacheMore.
Context `{Runtime}.
Import ResponseCache.

Lemma lookup_del_Some (d : list (Z * (string * Z))) k k' v :
  NoDup (PyDict.keys d) →
  PyDict.lookup (PyDict.del d k') k = Some v → PyDict.lookup d k = Some v.
Proof.
  intros Hnd. destruct (decide (k' = k)) as [->|Hne].
  - by rewrite lookup_del_eq.
  - by rewrite lookup_del_ne.
Qed.

(** Every entry of a cache that started empty was put there by a [set] of
    the run, under the key of its pair and with the time of that [set]. *)
Lemma run_provenance max_size ttl ops k r ts :
  PyDict.lookup (cache (run (mk max_size ttl []) ops)) k = Some (r, ts) →
  ∃ p pr, OpSet ts p r pr ∈ ops ∧ _make_key p pr = k.
Proof.
  revert k r ts. induction ops as [|o ops IH] using rev_ind; intros k r ts; [done|].
  unfold run. rewrite foldl_snoc. fold (run (mk max_size ttl []) ops).
  assert (Hnd : NoDup (PyDict.keys (cache (run (mk max_size ttl []) ops)))).
  { apply run_NoDup. simpl. constructor. }
  assert (Hold : ∀ k r ts,
             PyDict.lookup (cache (run (mk max_size ttl []) ops)) k = Some (r, ts) →
             ∃ p pr, OpSet ts p r pr ∈ ops ++ [o] ∧ _make_key p pr = k).
  { intros k0 r0 ts0 Hlk. destruct (IH _ _ _ Hlk) as (p & pr & Hin & Hk).
    exists p, pr. split; [|done]. apply elem_of_app. by left. }
  destruct o as [now p pr|now p r' pr]; simpl.
  - unfold get.
    destruct (PyDict.lookup _ (_make_key p pr)) as [[response timestamp]|];
      [|by apply Hold].
    case_bool_decide; [by apply Hold|]. simpl.
    intros Hlk%lookup_del_Some; [by apply Hold | done].
  - unfold set. set (st := run (mk max_size ttl []) ops) in *.
    assert (Hnew : ∀ d,
               (∀ v, PyDict.lookup d k = Some v →
                     PyDict.lookup (cache st) k = Some v) →
               PyDict.lookup (PyDict.store d (_make_key p pr) (r', now)) k
                 = Some (r, ts) →
               ∃ p0 pr0, OpSet ts p0 r pr0 ∈ ops ++ [OpSet now p r' pr]
                         ∧ _make_key p0 pr0 = k).
    { intros d Hd. destruct (decide (_make_key p pr = k)) as [Hk|Hk].
      - rewrite Hk, lookup_store_eq. intros [= <- <-].
        exists p, pr. split; [|done]. apply elem_of_app. right.
        by apply list_elem_of_singleton.
      - rewrite lookup_store_ne by done. intros Hlk. by apply Hold, Hd. }
    case_bool_decide.
    + destruct (PyDict.min_by _ _) as [oldest|]; simpl; [|by apply Hold].
      apply Hnew. intros v. by apply lookup_del_Some.
    + simpl. by apply Hnew.
Qed.

(** X10.  The cache serves only what was stored: a response [get] returns,
    in any state the operations reach from an empty cache, is the response
    of an earlier [set] of the run made under the same key, less than
    [ttl_seconds] before.  An expired or never stored response is never
    served. *)
Theorem get_serves_only_fresh max_size ttl ops now prompt provider r :
  (get (run (mk max_size ttl []) ops) now prompt provider).2 = Some r →
  ∃ ts p pr,
    OpSet ts p r pr ∈ ops
    ∧ _make_key p pr = _make_key prompt provider
    ∧ now - ts < seconds ttl.
Proof.
  unfold get.
  destruct (PyDict.lookup _ (_make_key prompt provider))
    as [[response ts]|] eqn:E; [|done].
  rewrite run_ttl. simpl. case_bool_decide as Hfresh; [|done].
  intros [= <-]. destruct (run_provenance _ _ _ _ _ _ E) as (p & pr & Hin & Hk).
  by exists ts, p, pr.
Qed.

Lemma make_key_normalised p1 p2 provider :
  str_strip (str_lower p1) = str_strip (str_lower p2) →
  _make_key p1 provider = _make_key p2 provider.
Proof. unfold _make_key. by intros ->. Qed.

(** X11.  The cache answers by key alone.  A response stored for one (prompt,
    provider) pair is served, until it expires, to every pair with the same
    key: to the prompts that differ only in case and surrounding blanks,
    and equally to an unrelated prompt whose key happens to collide. *)
Theorem cache_serves_by_key st now p1 pr1 p2 pr2 response st' now' :
  _make_key p2 pr2 = _make_key p1 pr1 →
  set st now p1 response pr1 = Some st' →
  now' - now < seconds (ttl_seconds st) →
  get st' now' p2 pr2 = (st', Some response)
  ∧ ∀ p3, str_strip (str_lower p3) = str_strip (str_lower p1) →
          get st' now' p3 pr1 = (st', Some response).
Proof.
  intros Hkey Hset Hfresh.
  destruct (set_inv _ _ _ _ _ _ Hset) as (_ & Httl & Hlk & _).
  split.
  - apply (get_fresh st' now); [by rewrite Hkey | by rewrite Httl].
  - intros p3 Hnorm. apply (get_fresh st' now); [|by rewrite Httl].
    by rewrite (make_key_normalised p3 p1).
Qed.

(** X12.  Storing under a key that is already present does not spare the
    eviction: when the cache is full, the entry with the least timestamp is
    deleted first all the same, so the overwrite leaves one entry fewer than
    the capacity and an unrelated response is lost. *)
Theorem overwrite_when_full_evicts max_size ttl ops now prompt response provider oldest :
  let st := run (mk max_size ttl []) ops in
  let key := _make_key prompt provider in
  len (cache st) = max_size →
  is_Some (PyDict.lookup (cache st) key) →
  PyDict.min_by (timestamp_of (cache st)) (PyDict.keys (cache st)) = Some oldest →
  oldest ≠ key →
  ∃ st',
    set st now prompt response provider = Some st'
    ∧ len (cache st') = max_size - 1
    ∧ PyDict.lookup (cache st') oldest = None
    ∧ PyDict.lookup (cache st') key = Some (response, now).
Proof.
  intros st key Hfull [entry Hkey] Hmin Hne.
  assert (Hnd : NoDup (PyDict.keys (cache st))).
  { apply run_NoDup. simpl. constructor. }
  assert (Hms : ResponseCache.max_size st = max_size).
  { unfold st. clear. induction ops as [|o ops IH] using rev_ind; [done|].
    unfold run. rewrite foldl_snoc. fold (run (mk max_size ttl []) ops).
    destruct o as [n p pr|n p r pr]; simpl.
    - by destruct (get_config (run (mk max_size ttl []) ops) n p pr) as [-> _].
    - destruct (set _ n p r pr) as [s|] eqn:E; simpl; [|done].
      by apply set_inv in E as (-> & _). }
  destruct (min_by_spec _ _ _ Hmin) as [Hin _].
  apply lookup_is_Some in Hin as [e He].
  unfold set. fold key. rewrite Hms, bool_decide_eq_true_2 by lia.
  rewrite Hmin. simpl. eexists. split; [done|]. simpl. split_and!.
  - assert (length (cache st) ≠ 0%nat) by (by destruct (cache st)).
    unfold len in *. rewrite length_store, lookup_del_ne, Hkey, length_del, He by done.
    lia.
  - rewrite lookup_store_ne by done. by apply lookup_del_eq.
  - apply lookup_store_eq.
Qed.

End ResponseCacheMore.

(** Stored for "Hello ", asked as "hello". *)
Lemma cache_serves_by_key_witness :
  ∃ st',
    ResponseCache.set (H := Demo.runtime) ResponseCache.init 1000 "Hello " "Hi." "gemini"
      = Some st'
    ∧ ResponseCache.get (H := Demo.runtime) st' 2000 "hello" "gemini"
      = (st', Some "Hi."%string).
Proof.
  destruct (ResponseCache.set (H := Demo.runtime) ResponseCache.init 1000
              "Hello " "Hi." "gemini") as [st'|] eqn:E; [|by vm_compute in E].
  exists st'. split; [done|].
  destruct (cache_serves_by_key (H := Demo.runtime) ResponseCache.init 1000
              "Hello " "gemini" "hello" "gemini" "Hi." st' 2000) as [Hhit _];
    [by vm_compute | done | by vm_compute | done].
Defined.

(** Stored for "Hello " at 1 s and read at 2 s. *)
Lemma get_serves_only_fresh_witness :
  ∃ ts p pr,
    ResponseCache.OpSet ts p "Hi." pr
      ∈ [ResponseCache.OpSet 1000 "Hello " "Hi." "gemini"]
    ∧ ResponseCache._make_key (H := Demo.runtime) p pr
      = ResponseCache._make_key (H := Demo.runtime) "hello" "gemini"
    ∧ 2000 - ts < seconds (H := Demo.runtime) 300.
Proof.
  apply (get_serves_only_fresh (H := Demo.runtime) 100 300
           [ResponseCache.OpSet 1000 "Hello " "Hi." "gemini"] 2000 "hello" "gemini").
  by vm_compute.
Defined.

(** A cache of two entries, "a" the older: storing "b" again deletes "a". *)
Lemma overwrite_when_full_evicts_witness :
  let st := ResponseCache.run (H := Demo.runtime) (ResponseCache.mk 2 300 [])
              [ResponseCache.OpSet 1000 "a" "reply a" "gemini";
               ResponseCache.OpSet 2000 "b" "reply b" "gemini"] in
  ∃ st',
    ResponseCache.set (H := Demo.runtime) st 3000 "b" "reply b2" "gemini" = Some st'
    ∧ len (ResponseCache.cache st') = 1
    ∧ (ResponseCache.get (H := Demo.runtime) st' 3000 "a" "gemini").2 = None.
Proof.
  intros st.
  destruct (overwrite_when_full_evicts (H := Demo.runtime) 2 300
              [ResponseCache.OpSet 1000 "a" "reply a" "gemini";
               ResponseCache.OpSet 2000 "b" "reply b" "gemini"]
              3000 "b" "reply b2" "gemini"
              (ResponseCache._make_key (H := Demo.runtime) "a" "gemini"))
    as (st' & Hset & Hlen & Hgone & _);
    [by vm_compute | by eexists; vm_compute | by vm_compute | by vm_compute |].
  exists st'. split; [exact Hset|]. split; [exact Hlen|].
  by rewrite (get_absent (H := Demo.runtime) st' 3000 "a" "gemini" Hgone).
Defined.


(* ================================================================== *)
(** * ConversationStore: expiry, isolation, the turn pair *)
(* ================================================================== *)

Section ConversationStoreMore.
Context `{Runtime}.
Import ConversationStore.

Lemma expired_by_age ttl now (q : list message) role content ts :
  last q = Some (role, content, ts) →
  expired ttl now q = bool_decide (seconds ttl < now - ts).
Proof. intros Hlast. unfold expired. by rewrite Hlast. Qed.

(** A session read no later than [ttl_seconds] after its last turn. *)
Lemma get_live st now sid role content ts :
  last (history st sid) = Some (role, content, ts) →
  now - ts ≤ seconds (ttl_seconds st) →
  (get st now sid).2 = (λ m : message, (m.1.1, m.1.2)) <$> history st sid.
Proof.
  intros Hlast Hage. rewrite get_spec. simpl.
  rewrite purge_history, (expired_by_age _ _ _ _ _ _ Hlast).
  by rewrite bool_decide_eq_false_2 by lia.
Qed.

(** X13.  A session lives by the age of its latest turn.  Read more than
    [ttl_seconds] after that turn, it is gone: [get] returns no turn and the
    session is deleted from the store.  Read up to and including
    [ttl_seconds] after it, [get] returns all its turns and keeps them. *)
Theorem session_expires_by_age st now sid role content ts :
  last (history st sid) = Some (role, content, ts) →
  (seconds (ttl_seconds st) < now - ts →
     (get st now sid).2 = [] ∧ _messages (get st now sid).1 !! sid = None)
  ∧ (now - ts ≤ seconds (ttl_seconds st) →
       (get st now sid).2 = (λ m : message, (m.1.1, m.1.2)) <$> history st sid
       ∧ history (get st now sid).1 sid = history st sid).
Proof.
  intros Hlast. rewrite get_spec. simpl.
  rewrite purge_history, (expired_by_age _ _ _ _ _ _ Hlast).
  split; intros Hage.
  - rewrite bool_decide_eq_true_2 by done. split; [done|].
    unfold _purge_expired. simpl. apply map_lookup_filter_None. right.
    intros q Hq. simpl. unfold history in Hlast. rewrite Hq in Hlast. simpl in Hlast.
    rewrite (expired_by_age _ _ _ _ _ _ Hlast).
    by rewrite bool_decide_eq_true_2.
  - by rewrite bool_decide_eq_false_2 by lia.
Qed.

(** X14.  Every [add] sweeps the whole store: a turn added to one session leaves
    every other live session as it is, and deletes every other session that
    has expired. *)
Theorem add_sweeps_other_sessions st now_purge now sid sid' role content :
  sid ≠ sid' →
  history (add st now_purge now sid role content) sid' =
    if expired (ttl_seconds st) now_purge (history st sid') then []
    else history st sid'.
Proof. intros Hne. by rewrite add_history_ne, purge_history. Qed.

Lemma deque_append_snoc {A} (m : nat) (q : list A) (x : A) :
  (1 ≤ m)%nat → ∃ older, deque_append m q x = older ++ [x].
Proof.
  intros Hm. unfold deque_append. case_bool_decide as Hfull; [|by exists q].
  destruct q as [|y q]; [simpl in Hfull; lia|]. by exists q.
Qed.

Lemma deque_append_snoc2 {A} (m : nat) (q : list A) (x y : A) :
  (2 ≤ m)%nat → ∃ older, deque_append m (q ++ [x]) y = older ++ [x; y].
Proof.
  intros Hm. unfold deque_append. case_bool_decide as Hfull.
  - destruct q as [|z q]; [simpl in Hfull; lia|].
    exists q. simpl. by rewrite <- app_assoc.
  - exists q. by rewrite <- app_assoc.
Qed.

(** The history after the two [add]s of an exchange. *)
Lemma add_turn_pair st p1 n1 p2 n2 sid user_text response :
  (2 ≤ max_messages st)%nat →
  p2 - n1 ≤ seconds (ttl_seconds st) →
  ∃ older,
    history (add (add st p1 n1 sid "user" user_text) p2 n2 sid "assistant" response)
      sid
    = older ++ [("user", user_text, n1); ("assistant", response, n2)]%string.
Proof.
  intros Hm Hage.
  destruct (deque_append_snoc (max_messages st)
              (history (_purge_expired st p1) sid) ("user"%string, user_text, n1))
    as [q Hq]; [lia|].
  rewrite add_history, purge_history. simpl.
  rewrite add_history, Hq.
  rewrite (expired_by_age _ _ _ "user"%string user_text n1) by apply last_snoc.
  rewrite bool_decide_eq_false_2 by lia.
  by apply deque_append_snoc2.
Qed.

(** X15.  The two turns of an exchange, added one after the other, end up as the
    last two turns of the session, the user's first: provided the store
    keeps at least two turns per session and no more than [ttl_seconds]
    pass between the two additions. *)
Theorem turn_pair_recorded st p1 n1 p2 n2 sid user_text response :
  (2 ≤ max_messages st)%nat →
  p2 - n1 ≤ seconds (ttl_seconds st) →
  ∃ older,
    history (add (add st p1 n1 sid "user" user_text) p2 n2 sid "assistant" response)
      sid
    = older ++ [("user", user_text, n1); ("assistant", response, n2)]%string.
Proof. exact (add_turn_pair st p1 n1 p2 n2 sid user_text response). Qed.

(** The run of the history endpoint. *)
Lemma history_view_run w sid :
  let looked :=
    ConversationStore.get (conversation_store w) (clock w (reads w)) sid in
  ∃ w', run_M (SessionHistoryView.get sid) w = (inr looked.2, w')
        ∧ conversation_store w' = looked.1
        ∧ rate_limiter w' = rate_limiter w
        ∧ metrics_tracker w' = metrics_tracker w
        ∧ response_cache w' = response_cache w.
Proof.
  cbv zeta. unfold SessionHistoryView.get, conversation_store_get. simpl.
  destruct (ConversationStore.get (conversation_store w) (clock w (reads w)) sid)
    as [cs h]. simpl.
  destruct h as [|m h]; simpl; eexists; by split_and!.
Qed.

(** X16.  The history endpoint never fails: it returns what the store returns for
    the session, which is the empty list for a session the store does not
    know. *)
Theorem session_history_view w sid :
  let looked :=
    ConversationStore.get (conversation_store w) (clock w (reads w)) sid in
  ∃ w', run_M (SessionHistoryView.get sid) w = (inr looked.2, w')
        ∧ conversation_store w' = looked.1
        ∧ rate_limiter w' = rate_limiter w
        ∧ metrics_tracker w' = metrics_tracker w
        ∧ response_cache w' = response_cache w
        ∧ (_messages (conversation_store w) !! sid = None → looked.2 = []).
Proof.
  intros looked.
  destruct (history_view_run w sid) as (w' & Hrun & Hcs & Hrl & Hmt & Hrc).
  exists w'. split_and!; [done..|].
  intros Hnone. unfold looked. rewrite get_spec. simpl.
  rewrite purge_history. unfold history. by rewrite Hnone.
Qed.

End ConversationStoreMore.

(** A turn stamped at 1 s, TTL 3600 s: still there at 3601 s, gone after. *)
Lemma session_expires_by_age_witness :
  let st := ConversationStore.add (H := Demo.runtime) ConversationStore.init
              1000 1000 "s1" "user" "hello" in
  (ConversationStore.get (H := Demo.runtime) st 3601000 "s1").2
    = [("user", "hello")]%string
  ∧ (ConversationStore.get (H := Demo.runtime) st 3601001 "s1").2 = [].
Proof.
  intros st.
  assert (Hlast : last (ConversationStore.history st "s1")
                  = Some ("user", "hello", 1000)%string) by (by vm_compute).
  split.
  - destruct (session_expires_by_age (H := Demo.runtime) st 3601000 "s1"
                "user" "hello" 1000 Hlast) as [_ Hlive].
    destruct Hlive as [-> _]; [by vm_compute | by vm_compute].
  - destruct (session_expires_by_age (H := Demo.runtime) st 3601001 "s1"
                "user" "hello" 1000 Hlast) as [Hdead _].
    by destruct Hdead as [-> _]; [by vm_compute|].
Defined.

Lemma add_sweeps_other_sessions_witness :
  let st := ConversationStore.add (H := Demo.runtime) ConversationStore.init
              1000 1000 "s1" "user" "hello" in
  ConversationStore.history
    (ConversationStore.add (H := Demo.runtime) st 3601001 3601001 "s2" "user" "hi")
    "s1" = [].
Proof.
  intros st.
  rewrite (add_sweeps_other_sessions (H := Demo.runtime) st 3601001 3601001
             "s2" "s1" "user" "hi"); [by vm_compute | done].
Defined.

Lemma turn_pair_recorded_witness :
  ∃ older,
    ConversationStore.history
      (ConversationStore.add (H := Demo.runtime)
         (ConversationStore.add (H := Demo.runtime) ConversationStore.init
            1000 1001 "s1" "user" "hello")
         1002 1003 "s1" "assistant" "Hi.") "s1"
    = older ++ [("user", "hello", 1001); ("assistant", "Hi.", 1003)]%string.
Proof.
  apply (turn_pair_recorded (H := Demo.runtime) ConversationStore.init
           1000 1001 1002 1003 "s1" "hello" "Hi."); [simpl; lia | by vm_compute].
Defined.

(** A session nobody wrote to: the endpoint answers the empty list. *)
Lemma session_history_view_witness :
  ∃ w', run_M (SessionHistoryView.get (H := Demo.runtime) "unknown")
          (Demo.fresh (Demo.ticking 0 5)) = (inr [], w').
Proof.
  destruct (session_history_view (H := Demo.runtime) (Demo.fresh (Demo.ticking 0 5))
              "unknown") as (w' & Hrun & _ & _ & _ & _ & Hnone).
  exists w'. rewrite Hrun, Hnone; done.
Defined.


(* ================================================================== *)
(** * DialogueView: the three outcomes of a request *)
(* ================================================================== *)

Section DialogueMore.
Context `{Runtime}.
Import DialogueView.

Local Arguments RateLimiter.is_allowed : simpl never.
Local Arguments ResponseCache.get : simpl never.
Local Arguments ResponseCache.set : simpl never.
Local Arguments ConversationStore.add : simpl never.
Local Arguments MetricsTracker.record_request : simpl never.
Local Arguments MetricsTracker.record_rate_limit : simpl never.
Local Arguments Z.quot : simpl never.
Local Arguments Z.mul : simpl never.
Local Arguments Z.sub : simpl never.
Local Arguments PyDict.lookup : simpl never.
Local Arguments String.append : simpl never.

(** The run of [post] and its effect. *)
Lemma post_run out req w :
  ∃ r w', run_M (post out req) w = (inr r, w') ∧ post_effect out req w r w'.
Proof.
  destruct w as [rl mt rc cs clk rd wr]. unfold post_effect. simpl.
  set (user_text := str_strip (text req)) in *.
  set (provider := normalize_provider _) in *.
  unfold post, rate_limiter_is_allowed. fold user_text. simpl.
  destruct (decide (user_text = ""%string)) as [Hempty|Htext].
  { rewrite (bool_decide_eq_true_2 _ Hempty). simpl.
    do 2 eexists. split; [reflexivity|]. by simpl. }
  rewrite (bool_decide_eq_false_2 _ Htext). simpl.
  destruct (RateLimiter.is_allowed rl (clk (S rd)) (client_ip req))
    as [rl' ok] eqn:Erl.
  destruct ok; simpl.
  2:{ do 2 eexists. split; [reflexivity|]. by simpl. }
  unfold get_llm_response, response_cache_get, response_cache_set.
  fold provider. simpl.
  assert (Hsrc : provider =
            if bool_decide (provider = "local") then "local"%string
            else "gemini"%string).
  { case_bool_decide; [done|].
    by destruct (normalize_provider_cases
                   (default DEFAULT_LLM_PROVIDER (DialogueView.provider req))). }
  clearbody provider.
  destruct (PyDict.lookup (ResponseCache.cache rc)
              (ResponseCache._make_key user_text provider)) as [entry|] eqn:Elk; simpl.
  - destruct (ResponseCache.get rc (clk (S (S rd))) user_text provider)
      as [c [[|ch cached]|]] eqn:Eget; simpl.
    + destruct (bool_decide (provider = "local")) eqn:Eprov.
      * destruct (local_reply out) as [e|response_text]; simpl.
        { do 2 eexists. split; [reflexivity|]. simpl. split_and!; eauto 10. }
        destruct (ResponseCache.set c _ _ _ _) as [c'|]; simpl;
          do 2 eexists; (split; [reflexivity|]); simpl; split_and!; eauto 10.
      * destruct (gemini_reply out) as [e|response_text]; simpl.
        { do 2 eexists. split; [reflexivity|]. simpl. split_and!; eauto 10. }
        destruct (ResponseCache.set c _ _ _ _) as [c'|]; simpl;
          do 2 eexists; (split; [reflexivity|]); simpl; split_and!; eauto 10.
    + do 2 eexists. split; [reflexivity|]. simpl. split_and!; eauto 10.
    + destruct (bool_decide (provider = "local")) eqn:Eprov.
      * destruct (local_reply out) as [e|response_text]; simpl.
        { do 2 eexists. split; [reflexivity|]. simpl. split_and!; eauto 10. }
        destruct (ResponseCache.set c _ _ _ _) as [c'|]; simpl;
          do 2 eexists; (split; [reflexivity|]); simpl; split_and!; eauto 10.
      * destruct (gemini_reply out) as [e|response_text]; simpl.
        { do 2 eexists. split; [reflexivity|]. simpl. split_and!; eauto 10. }
        destruct (ResponseCache.set c _ _ _ _) as [c'|]; simpl;
          do 2 eexists; (split; [reflexivity|]); simpl; split_and!; eauto 10.
  - destruct (bool_decide (provider = "local")) eqn:Eprov.
    + destruct (local_reply out) as [e|response_text]; simpl.
      { do 2 eexists. split; [reflexivity|]. simpl. split_and!; eauto 10. }
      destruct (ResponseCache.set rc _ _ _ _) as [c'|]; simpl;
        do 2 eexists; (split; [reflexivity|]); simpl; split_and!; eauto 10.
    + destruct (gemini_reply out) as [e|response_text]; simpl.
      { do 2 eexists. split; [reflexivity|]. simpl. split_and!; eauto 10. }
      destruct (ResponseCache.set rc _ _ _ _) as [c'|]; simpl;
        do 2 eexists; (split; [reflexivity|]); simpl; split_and!; eauto 10.
Qed.


(** X18.  A request whose text is empty once stripped is answered 400 and goes
    no further: the rate limiter, the metrics, the cache and the
    conversation store are exactly as before. *)
Theorem post_empty_text_touches_nothing out req w :
  str_strip (text req) = ""%string →
  ∃ w', run_M (post out req) w = (inr Response400, w')
        ∧ rate_limiter w' = rate_limiter w
        ∧ metrics_tracker w' = metrics_tracker w
        ∧ response_cache w' = response_cache w
        ∧ conversation_store w' = conversation_store w
        ∧ wire w' = wire w.
Proof.
  intros Hempty. destruct w as [rl mt rc cs clk rd wr].
  unfold post. simpl. rewrite (bool_decide_eq_true_2 _ Hempty). simpl.
  eexists. by split_and!.
Qed.

(** X19.  A request the rate limiter refuses is answered 429: the refusal is
    counted in [rate_limited_requests] and in nothing else, no provider is
    called, and the cache and the conversation store are exactly as
    before. *)
Theorem post_rate_limited out req w :
  let limited :=
    RateLimiter.is_allowed (rate_limiter w) (clock w (1 + reads w)) (client_ip req) in
  str_strip (text req) ≠ ""%string →
  limited.2 = false →
  ∃ w', run_M (post out req) w = (inr Response429, w')
        ∧ rate_limiter w' = limited.1
        ∧ metrics_tracker w' = MetricsTracker.record_rate_limit (metrics_tracker w)
        ∧ MetricsTracker.total_requests (metrics_tracker w')
          = MetricsTracker.total_requests (metrics_tracker w)
        ∧ response_cache w' = response_cache w
        ∧ conversation_store w' = conversation_store w.
Proof.
  intros limited Htext Hno. destruct w as [rl mt rc cs clk rd wr].
  unfold post, rate_limiter_is_allowed. simpl in *.
  rewrite (bool_decide_eq_false_2 _ Htext). simpl.
  unfold limited in *.
  destruct (RateLimiter.is_allowed rl (clk (S rd)) (client_ip req)) as [rl' ok].
  simpl in Hno. subst ok. simpl. eexists. by split_and!.
Qed.

(** X20.  A live, non-empty cached response is served without calling any
    provider, so also when the provider is down; the cache is left as it
    is, and the request is counted under the provider, not as a fallback. *)
Theorem post_serves_cached_response out req w c s ts :
  let user_text := str_strip (text req) in
  let provider := normalize_provider (default DEFAULT_LLM_PROVIDER (provider req)) in
  let key := ResponseCache._make_key user_text provider in
  let mt := metrics_tracker w in
  user_text ≠ ""%string →
  (RateLimiter.is_allowed (rate_limiter w) (clock w (1 + reads w)) (client_ip req)).2
    = true →
  PyDict.lookup (ResponseCache.cache (response_cache w)) key = Some (String c s, ts) →
  clock w (2 + reads w) - ts < seconds (ResponseCache.ttl_seconds (response_cache w)) →
  ∃ latency_ms sid w',
    run_M (post out req) w =
      (inr (Response200 (String c s) (provider ++ "-cache") latency_ms sid), w')
    ∧ response_cache w' = response_cache w
    ∧ MetricsTracker.classified (metrics_tracker w') =
        if bool_decide (provider = "local"%string) then
          (MetricsTracker.gemini_requests mt, MetricsTracker.local_requests mt + 1,
           MetricsTracker.fallback_requests mt)
        else
          (MetricsTracker.gemini_requests mt + 1, MetricsTracker.local_requests mt,
           MetricsTracker.fallback_requests mt).
Proof.
  destruct w as [rl mt rc cs clk rd wr]. simpl.
  intros Htext Hok Hlk Hfresh.
  set (user_text := str_strip (text req)) in *.
  set (provider := normalize_provider _) in *.
  unfold post, rate_limiter_is_allowed. fold user_text. simpl.
  rewrite (bool_decide_eq_false_2 _ Htext). simpl.
  destruct (RateLimiter.is_allowed rl (clk (S rd)) (client_ip req))
    as [rl' ok] eqn:Erl.
  simpl in Hok. subst ok. simpl.
  unfold get_llm_response, response_cache_get. fold provider. simpl.
  rewrite Hlk. simpl.
  rewrite (get_fresh rc ts (clk (S (S rd))) user_text (String c s) provider Hlk Hfresh).
  simpl. do 3 eexists. split; [reflexivity|]. simpl. split; [done|].
  rewrite record_request_classified.
  destruct (normalize_provider_cases
              (default DEFAULT_LLM_PROVIDER (DialogueView.provider req))) as [Hp|Hp];
    fold provider in Hp; rewrite Hp; done.
Qed.

(** X21.  A dialogue exchange shows in the session history: after a 200 answer,
    the history endpoint returns, for the session id of the answer, a list
    that ends with the user's text and then the response.  This needs a
    store that keeps at least two turns and a clock that advances by at most
    [ttl_seconds] between two readings. *)
Theorem post_then_history out req w response_text source latency_ms sid w' :
  (∀ i, clock w (S i) - clock w i
        ≤ seconds (ConversationStore.ttl_seconds (conversation_store w))) →
  (2 ≤ ConversationStore.max_messages (conversation_store w))%nat →
  run_M (post out req) w = (inr (Response200 response_text source latency_ms sid), w') →
  ∃ older w'',
    run_M (SessionHistoryView.get sid) w' =
      (inr (older ++ [("user", str_strip (text req)); ("assistant", response_text)]%string),
       w'').
Proof.
  intros Hclock Hmax Hrun.
  destruct (post_run out req w) as (r0 & w0 & Hrun0 & Heff).
  rewrite Hrun in Hrun0. injection Hrun0 as <- <-.
  destruct Heff as (_ & _ & _ & _ & _ & _ & Hclk & k & Hreads & Hstore).
  destruct (history_view_run w' sid) as (w'' & Hview & _).
  rewrite Hview. rewrite Hstore, Hclk, Hreads.
  set (cs1 := ConversationStore.add (conversation_store w) (clock w k)
                (clock w (S k)) sid "user" (str_strip (text req))).
  destruct (add_turn_pair (conversation_store w) (clock w k) (clock w (S k))
              (clock w (S (S k))) (clock w (S (S (S k)))) sid
              (str_strip (text req)) response_text Hmax (Hclock (S k)))
    as [older Hhist].
  fold cs1 in Hhist.
  set (cs2 := ConversationStore.add cs1 _ _ sid "assistant" response_text) in *.
  assert (Hget := get_live cs2 (clock w (S (S (S (S k))))) sid
                    "assistant" response_text (clock w (S (S (S k))))).
  rewrite Hget; [|by rewrite Hhist, last_app_cons | apply (Hclock (S (S (S k))))].
  exists ((λ m : ConversationStore.message, (m.1.1, m.1.2)) <$> older), w''.
  rewrite Hhist, fmap_app. done.
Qed.

End DialogueMore.

(** A text of spaces only. *)
Lemma post_empty_text_touches_nothing_witness :
  let out := Demo.outside (inr "unused"%string) [] None in
  let req := DialogueView.mk_request "   " "" None "" "10.0.0.7" in
  let w := Demo.fresh (Demo.ticking 0 5) in
  ∃ w', run_M (DialogueView.post (H := Demo.runtime) out req) w
        = (inr DialogueView.Response400, w')
        ∧ rate_limiter w' = rate_limiter w
        ∧ metrics_tracker w' = metrics_tracker w
        ∧ response_cache w' = response_cache w
        ∧ conversation_store w' = conversation_store w
        ∧ wire w' = wire w.
Proof.
  intros out req w.
  apply (post_empty_text_touches_nothing (H := Demo.runtime) out req w).
  by vm_compute.
Defined.

(** One call a minute, and the client called five milliseconds ago. *)
Lemma post_rate_limited_witness :
  let out := Demo.outside (inr "unused"%string) [] None in
  let req := DialogueView.mk_request "I feel anxious" "" None "" "10.0.0.7" in
  let w := mk_world (RateLimiter.mk 1 {["10.0.0.7"%string := [0]]})
             MetricsTracker.init ResponseCache.init ConversationStore.init
             (Demo.ticking 0 5) 0 [] in
  ∃ w', run_M (DialogueView.post (H := Demo.runtime) out req) w
        = (inr DialogueView.Response429, w')
        ∧ MetricsTracker.rate_limited_requests (metrics_tracker w') = 1
        ∧ MetricsTracker.total_requests (metrics_tracker w') = 0.
Proof.
  intros out req w.
  destruct (post_rate_limited (H := Demo.runtime) out req w)
    as (w' & Hrun & _ & Hmt & Htotal & _); [by vm_compute | by vm_compute |].
  exists w'. split; [exact Hrun|]. by rewrite Htotal, Hmt.
Defined.

(** The provider is down, the answer is in the cache. *)
Lemma post_serves_cached_response_witness :
  let out := Demo.outside (inl "No Gemini API key configured"%string) [] None in
  let req := DialogueView.mk_request "I feel anxious " "" None "s1" "10.0.0.7" in
  let key := ResponseCache._make_key (H := Demo.runtime) "I feel anxious" "gemini" in
  let w := mk_world (RateLimiter.init 10) MetricsTracker.init
             (ResponseCache.mk 100 300 [(key, ("That sounds hard."%string, 0))])
             ConversationStore.init (Demo.ticking 0 5) 0 [] in
  ∃ latency_ms sid w',
    run_M (DialogueView.post (H := Demo.runtime) out req) w
    = (inr (DialogueView.Response200 "That sounds hard." "gemini-cache"
              latency_ms sid), w')
    ∧ MetricsTracker.classified (metrics_tracker w') = (1, 0, 0).
Proof.
  intros out req key w.
  destruct (post_serves_cached_response (H := Demo.runtime) out req w
              "T" "hat sounds hard." 0)
    as (lat & sid & w' & Hrun & _ & Hcl);
    [by vm_compute | by vm_compute | by vm_compute | by vm_compute |].
  exists lat, sid, w'. split; [exact Hrun | exact Hcl].
Defined.

(** An exchange answered by the provider, read back from the history. *)
Lemma post_then_history_witness :
  let out := Demo.outside (inr "That sounds hard."%string) [] None in
  let req := DialogueView.mk_request "I feel anxious " "" None "s1" "10.0.0.7" in
  let w := Demo.fresh (Demo.ticking 0 5) in
  ∃ older w'',
    run_M (SessionHistoryView.get (H := Demo.runtime) "s1")
      (run_M (DialogueView.post (H := Demo.runtime) out req) w).2
    = (inr (older ++ [("user", "I feel anxious"); ("assistant", "That sounds hard.")]%string),
       w'').
Proof.
  intros out req w.
  destruct (post_then_history (H := Demo.runtime) out req w
              "That sounds hard." "gemini" 15 "s1"
              (run_M (DialogueView.post (H := Demo.runtime) out req) w).2)
    as (older & w'' & Hget).
  - intros i. unfold w, Demo.fresh, Demo.ticking, seconds. simpl. lia.
  - simpl. lia.
  - by vm_compute.
  - exists older, w''. exact Hget.
Defined.

(* ================================================================== *)
(** * DialogueView.get_client_ip and the splitting of strings *)
(* ================================================================== *)

Lemma split_on_cons sep s : ∃ first rest, split_on sep s = first :: rest.
Proof.
  induction s as [|c s (first & rest & IH)]; simpl; [by eauto|].
  destruct (Ascii.eqb c sep); [by eauto|]. rewrite IH. by eauto.
Qed.

Lemma concat_cons sep x y ys :
  String.concat sep (x :: y :: ys) = (x ++ sep ++ String.concat sep (y :: ys))%string.
Proof. done. Qed.

(** Splitting and joining again with the separator gives the string back. *)
Lemma concat_split_on sep s :
  String.concat (String sep EmptyString) (split_on sep s) = s.
Proof.
  induction s as [|c s IH]; [done|].
  destruct (split_on_cons sep s) as (first & rest & E).
  cbn [split_on]. rewrite E in *.
  destruct (Ascii.eqb_spec c sep) as [->|Hne].
  - rewrite concat_cons, IH. done.
  - destruct rest as [|w ws].
    + simpl in *. by rewrite IH.
    + rewrite concat_cons in *. by rewrite <- IH.
Qed.

(** No piece holds the separator. *)
Lemma split_on_pieces sep s :
  Forall (λ w, sep ∉ list_ascii_of_string w) (split_on sep s).
Proof.
  induction s as [|c s IH]; simpl.
  - repeat constructor. simpl. by intros ?%elem_of_nil.
  - destruct (Ascii.eqb_spec c sep) as [->|Hne].
    + constructor; [|done]. simpl. by intros ?%elem_of_nil.
    + destruct (split_on sep s) as [|w ws]; simpl.
      * repeat constructor. simpl. intros [?|?%elem_of_nil]%elem_of_cons; congruence.
      * inversion IH as [|? ? Hw Hws]; subst. constructor; [|done]. simpl.
        intros [?|?]%elem_of_cons; [congruence|done].
Qed.

Section ClientIp.
Context `{Runtime}.

(** X22.  [get_client_ip] never raises.  With a non-empty X-Forwarded-For
    header the client identity is the stripped text of the header before
    its first comma, whatever REMOTE_ADDR is; without the header, or with
    an empty one, it is REMOTE_ADDR, or "unknown" when that is absent. *)
Theorem get_client_ip_total x_forwarded_for remote_addr :
  ∃ ip, get_client_ip x_forwarded_for remote_addr = Some ip
        ∧ match x_forwarded_for with
          | Some (String c s) =>
              ∃ first rest,
                String c s = String.concat "," (first :: rest)
                ∧ (","%char ∉ list_ascii_of_string first)
                ∧ ip = str_strip first
          | _ => ip = default "unknown"%string remote_addr
          end.
Proof.
  destruct x_forwarded_for as [[|c s]|]; [by eexists..| |by eexists].
  unfold get_client_ip.
  pose proof (concat_split_on "," (String c s)) as Hcat.
  pose proof (split_on_pieces "," (String c s)) as Hpieces.
  destruct (split_on_cons "," (String c s)) as (first & rest & E).
  rewrite E in *. inversion Hpieces; subst.
  exists (str_strip first). split; [done|]. by exists first, rest.
Qed.

End ClientIp.

(* ================================================================== *)
(** * StreamConsumer: the whole effect of one frame *)
(* ================================================================== *)

Lemma sent_nil w : sent w [] = w.
Proof. destruct w. unfold sent. simpl. by rewrite app_nil_r. Qed.

Lemma sent_sent w evs1 evs2 : sent (sent w evs1) evs2 = sent w (evs1 ++ evs2).
Proof. unfold sent. simpl. by rewrite app_assoc. Qed.

Lemma run_bind {A B} (m : M A) (f : A → M B) w :
  run_M (m ≫= f) w =
  match run_M m w with
  | (inr a, w') => run_M (f a) w'
  | (inl e, w') => (inl e, w')
  end.
Proof. done. Qed.

Lemma run_try_except {A} (m : M A) (h : string → M A) w :
  run_M (try_except m h) w =
  match run_M m w with
  | (inr a, w') => (inr a, w')
  | (inl e, w') => run_M (h e) w'
  end.
Proof. done. Qed.

Lemma run_send e w : run_M (send e) w = (inr tt, sent w [e]).
Proof. done. Qed.

Lemma run_for_each_send {A} (body : A → M unit) (f : A → event) xs :
  (∀ x, body x = send (f x)) →
  ∀ w, run_M (for_each xs body) w = (inr tt, sent w (f <$> xs)).
Proof.
  intros Hbody. induction xs as [|x xs IH]; intros w.
  - by rewrite sent_nil.
  - cbn [for_each]. rewrite run_bind, Hbody, run_send, IH, sent_sent. done.
Qed.

Lemma emitted_sent w evs : emitted w (sent w evs) = evs.
Proof. unfold emitted, sent. simpl. by rewrite drop_app_length. Qed.

Section StreamingMore.
Context `{Runtime}.
Import StreamConsumer.

Lemma run_persist sid user_text response w :
  run_M (if bool_decide (sid = ""%string) then mret tt
         else conversation_store_add sid "user" user_text;;
              conversation_store_add sid "assistant" response) w
  = (inr tt, persisted w sid user_text response).
Proof. unfold persisted. by case_bool_decide. Qed.

Lemma emitted_persisted w0 w sid user_text response :
  emitted w0 (persisted w sid user_text response) = emitted w0 w.
Proof. unfold persisted. by case_bool_decide. Qed.

Lemma run_stream_llm_response_ok out user_text provider api_key sid w :
  raises (llm_stream out) = None →
  run_M (stream_llm_response out user_text provider api_key sid) w =
    (inr tt,
     persisted (sent w (streamed provider (chunks (llm_stream out))))
       sid user_text (join (chunks (llm_stream out)))).
Proof.
  intros Hok. unfold stream_llm_response. rewrite Hok.
  rewrite run_try_except, run_bind, run_send, run_bind.
  rewrite (run_for_each_send _ Token) by done.
  rewrite run_bind. cbn [run_M mret M_ret]. rewrite run_bind, run_send.
  rewrite run_persist, !sent_sent. done.
Qed.

Lemma run_stream_llm_response_raises out user_text provider api_key sid w e :
  raises (llm_stream out) = Some e →
  run_M (stream_llm_response out user_text provider api_key sid) w =
    (inl e, sent w (Start provider :: (Token <$> chunks (llm_stream out)))).
Proof.
  intros Hok. unfold stream_llm_response. rewrite Hok.
  rewrite run_try_except, run_bind, run_send, run_bind.
  rewrite (run_for_each_send _ Token) by done.
  rewrite run_bind. cbn [run_M raise]. rewrite sent_sent. done.
Qed.

Lemma run_stream_fallback_response out user_text sid w :
  run_M (stream_fallback_response out user_text sid) w =
    (inr tt,
     persisted (sent w (streamed "fallback" (fallback_tokens (fallback_reply out))))
       sid user_text (fallback_reply out)).
Proof.
  unfold stream_fallback_response. cbv zeta.
  rewrite run_bind, run_send, run_bind.
  rewrite (run_for_each_send _
    (λ '(i, word), Token (word ++
       (if bool_decide (i < len (split_on " " (fallback_reply out)) - 1)
        then " " else ""))%string)) by (by intros [i word]).
  rewrite run_bind, run_send, run_persist, !sent_sent.
  do 3 f_equal. unfold streamed, fallback_tokens. simpl. do 2 f_equal.
  rewrite <- list_fmap_compose. apply list_fmap_ext. by intros ? [i word].
Qed.


Lemma receive_run out text_data w :
  run_M (receive out text_data) w =
    (inr tt,
     match text_data with
     | None => sent w [Error "Invalid JSON format"]
     | Some data =>
         let user_text := str_strip (text data) in
         let provider :=
           normalize_provider (default DEFAULT_LLM_PROVIDER (provider data)) in
         let sid :=
           if bool_decide (session_id data = ""%string) then fresh_uuid out
           else session_id data in
         let frags := chunks (llm_stream out) in
         let canned := fallback_reply out in
         if bool_decide (user_text = ""%string) then
           sent w [Error "Text field is required"]
         else
           match raises (llm_stream out) with
           | None => persisted (sent w (streamed provider frags)) sid user_text (join frags)
           | Some _ =>
               persisted (sent w (fell_back provider frags (fallback_tokens canned)))
                 sid user_text canned
           end
     end).
Proof.
  unfold receive. rewrite run_try_except.
  destruct text_data as [data|]; [|done]. cbv zeta.
  case_bool_decide; [done|].
  unfold stream_response. cbv zeta. rewrite run_try_except.
  destruct (raises (llm_stream out)) as [e|] eqn:Hr.
  - rewrite (run_stream_llm_response_raises _ _ _ _ _ _ e Hr).
    rewrite run_stream_fallback_response, sent_sent. done.
  - by rewrite (run_stream_llm_response_ok _ _ _ _ _ _ Hr).
Qed.

Lemma count_terminal_streamed source frags :
  count is_terminal (streamed source frags) = 1%nat.
Proof.
  unfold streamed.
  change (Start source :: (Token <$> frags) ++ [Done source])
    with ([Start source] ++ (Token <$> frags) ++ [Done source]).
  by rewrite !count_app, !count_tokens.
Qed.

Lemma count_terminal_fell_back source frags toks :
  count is_terminal (fell_back source frags toks) = 1%nat.
Proof.
  unfold fell_back.
  change (Start source :: (Token <$> frags) ++ streamed "fallback" toks)
    with ([Start source] ++ (Token <$> frags) ++ streamed "fallback" toks).
  by rewrite !count_app, !count_tokens, count_terminal_streamed.
Qed.

(** X23.  [receive] never raises, and answers every frame it is given with
    frames of which exactly one is terminal ([Done] or [Error]) and that one
    is the last: undecodable JSON, blank text, a stream that completes and a
    stream that fails all end the exchange once. *)
Theorem receive_one_terminal_frame out text_data w :
  ∃ w', run_M (receive out text_data) w = (inr tt, w')
        ∧ count is_terminal (emitted w w') = 1%nat
        ∧ ∃ e, last (emitted w w') = Some e ∧ is_terminal e = true.
Proof.
  eexists. split; [apply receive_run|].
  destruct text_data as [data|]; cbv zeta.
  2:{ rewrite emitted_sent. split; [done|]. by eexists. }
  case_bool_decide.
  { rewrite emitted_sent. split; [done|]. by eexists. }
  destruct (raises (llm_stream out)); rewrite emitted_persisted, emitted_sent.
  - split; [apply count_terminal_fell_back|].
    exists (Done "fallback"). split; [|done]. apply fell_back_shape.
  - split; [apply count_terminal_streamed|].
    eexists. split; [apply last_streamed|done].
Qed.

(** X24.  The websocket path goes round the rate limiter, the metrics and the
    response cache: whatever the frame, [receive] leaves all three exactly
    as they were, so a streamed exchange is never refused, never counted
    and never served from or stored in the cache. *)
Theorem receive_bypasses_limiter_metrics_cache out text_data w :
  ∃ w', run_M (receive out text_data) w = (inr tt, w')
        ∧ rate_limiter w' = rate_limiter w
        ∧ metrics_tracker w' = metrics_tracker w
        ∧ response_cache w' = response_cache w.
Proof.
  eexists. split; [apply receive_run|].
  destruct text_data as [data|]; cbv zeta; [|done].
  case_bool_decide; [done|].
  unfold persisted.
  destruct (raises (llm_stream out)); by case_bool_decide.
Qed.

(** X25.  A frame with text stores one turn pair under its session id (a fresh
    one when the frame gives none): the user's stripped text, then the
    concatenation of all fragments when the stream completed, or the canned
    response alone when it failed, the fragments already sent being
    dropped from the history. *)
Theorem receive_persists_turn_pair out data w :
  let user_text := str_strip (text data) in
  let sid :=
    if bool_decide (session_id data = ""%string) then fresh_uuid out
    else session_id data in
  let response :=
    match raises (llm_stream out) with
    | None => join (chunks (llm_stream out))
    | Some _ => fallback_reply out
    end in
  user_text ≠ ""%string →
  fresh_uuid out ≠ ""%string →
  ∃ w', run_M (receive out (Some data)) w = (inr tt, w')
        ∧ conversation_store w' =
            ConversationStore.add
              (ConversationStore.add (conversation_store w)
                 (clock w (reads w)) (clock w (1 + reads w)) sid "user" user_text)
              (clock w (2 + reads w)) (clock w (3 + reads w)) sid
              "assistant" response.
Proof.
  intros user_text sid response Htext Huuid.
  eexists. split; [apply receive_run|]. cbv zeta. fold user_text sid.
  rewrite (bool_decide_eq_false_2 _ Htext).
  assert (Hsid : sid ≠ ""%string) by (unfold sid; by case_bool_decide).
  unfold persisted, response.
  destruct (raises (llm_stream out)); by rewrite (bool_decide_eq_false_2 _ Hsid).
Qed.

(** X26.  A frame that is not JSON, or whose text is blank once stripped, is
    answered by a single [Error] frame and has no other effect: nothing is
    stored, the clock is not read, no provider is started. *)
Theorem receive_rejects_without_effect out text_data w :
  match text_data with
  | None => True
  | Some data => str_strip (text data) = ""%string
  end →
  ∃ msg, run_M (receive out text_data) w = (inr tt, sent w [Error msg]).
Proof.
  intros Hbad. rewrite receive_run.
  destruct text_data as [data|]; cbv zeta; [|by eexists].
  rewrite (bool_decide_eq_true_2 _ Hbad). by eexists.
Qed.

End StreamingMore.

(** Two fragments streamed for the session "s1". *)
Lemma receive_persists_turn_pair_witness :
  let out := Demo.outside (inl "unused"%string) ["Hel"; "lo"]%string None in
  let data := StreamConsumer.mk_request "hello there " "" None "s1" in
  ∃ w', run_M (StreamConsumer.receive (H := Demo.runtime) out (Some data))
          (Demo.fresh (Demo.ticking 0 5)) = (inr tt, w')
        ∧ ConversationStore.history (conversation_store w') "s1"
          = [("user", "hello there", 5); ("assistant", "Hello", 15)]%string.
Proof.
  intros out data.
  destruct (receive_persists_turn_pair (H := Demo.runtime) out data
              (Demo.fresh (Demo.ticking 0 5)))
    as (w' & Hrun & Hstore); [by vm_compute | by vm_compute |].
  exists w'. split; [exact Hrun|]. rewrite Hstore. by vm_compute.
Defined.

(** A frame that is not JSON. *)
Lemma receive_rejects_without_effect_witness :
  let out := Demo.outside (inl "unused"%string) [] None in
  let w := Demo.fresh (Demo.ticking 0 5) in
  ∃ msg, run_M (StreamConsumer.receive (H := Demo.runtime) out None) w
         = (inr tt, sent w [Error msg]).
Proof.
  intros out w.
  exact (receive_rejects_without_effect (H := Demo.runtime) out None w I).
Defined.

(* ================================================================== *)
(** * The canned response: its tokens and its choice *)
(* ================================================================== *)

Lemma append_nil_r (s : string) : (s ++ "")%string = s.
Proof.
  induction s as [|c s IH]; [done|].
  change (String c (s ++ "")%string = String c s). by rewrite IH.
Qed.

Lemma append_assoc (s1 s2 s3 : string) :
  ((s1 ++ s2) ++ s3)%string = (s1 ++ s2 ++ s3)%string.
Proof.
  induction s1 as [|c s1 IH]; [done|].
  change (String c ((s1 ++ s2) ++ s3)%string = String c (s1 ++ s2 ++ s3)%string).
  by rewrite IH.
Qed.

(** Gluing words, each but the last followed by the separator, is joining
    them with the separator. *)
Lemma concat_glue (sep : string) (ws : list string) (total : Z) (k : nat) :
  ws ≠ [] →
  total = Z.of_nat (k + length ws) →
  String.concat ""
    ((λ '(i, word), (word ++ (if bool_decide (i < total - 1) then sep else ""))%string)
       <$> imap (λ i x, (Z.of_nat (k + i), x)) ws)
  = String.concat sep ws.
Proof.
  revert k. induction ws as [|x ws IH]; intros k Hne Htotal; [done|].
  rewrite imap_cons. destruct ws as [|y ws].
  - simpl in *. rewrite bool_decide_eq_false_2 by lia. by rewrite !append_nil_r.
  - rewrite concat_cons.
    rewrite (imap_ext _ (λ i x, (Z.of_nat (S k + i), x))) by
      (intros; simpl; do 2 f_equal; lia).
    rewrite <- (IH (S k)) by (simpl in *; done || lia).
    rewrite imap_cons. cbn [fmap list_fmap]. change (List.map ?f ?l) with (f <$> l).
    rewrite concat_cons.
    rewrite bool_decide_eq_true_2 by (simpl in *; lia).
    by rewrite append_assoc.
Qed.

(** X27.  The tokens [stream_fallback_response] sends are the canned response cut
    after each space: joined in the order sent they give the response back,
    character for character, runs of spaces included. *)
Theorem fallback_tokens_reassemble response :
  join (fallback_tokens response) = response.
Proof.
  unfold join, fallback_tokens, enumerate. cbv zeta.
  destruct (split_on_cons " " response) as (first & rest & E).
  transitivity (String.concat " " (split_on " " response));
    [|apply concat_split_on].
  apply (concat_glue " " (split_on " " response) _ 0); [by rewrite E|done].
Qed.

Lemma random_choice_elem draw xs :
  xs ≠ [] → ∃ r, random_choice draw xs = Some r ∧ r ∈ xs.
Proof.
  intros Hne. unfold random_choice.
  destruct (lookup_lt_is_Some_2 xs (draw `mod` length xs)) as [r Hr].
  { apply Nat.mod_upper_bound. by destruct xs. }
  exists r. split; [done|]. by eapply list_elem_of_lookup_2.
Qed.

Lemma templates_disjoint r :
  (r ∈ GREETING_RESPONSES →
     (r ∉ ACKNOWLEDGMENT_RESPONSES) ∧ (r ∉ FALLBACK_RESPONSES))
  ∧ (r ∈ ACKNOWLEDGMENT_RESPONSES → r ∉ FALLBACK_RESPONSES).
Proof.
  unfold GREETING_RESPONSES, ACKNOWLEDGMENT_RESPONSES, FALLBACK_RESPONSES.
  split; intros Hin; repeat (apply elem_of_cons in Hin as [->|Hin]);
    try (by apply elem_of_nil in Hin);
    repeat split; intros Hin';
    repeat (apply elem_of_cons in Hin' as [Heq|Hin']; [discriminate|]);
    by apply elem_of_nil in Hin'.
Qed.

Lemma templates_nonempty r :
  r ∈ GREETING_RESPONSES ++ ACKNOWLEDGMENT_RESPONSES ++ FALLBACK_RESPONSES →
  r ≠ ""%string.
Proof.
  unfold GREETING_RESPONSES, ACKNOWLEDGMENT_RESPONSES, FALLBACK_RESPONSES.
  intros Hin ->. simpl in Hin.
  repeat (apply elem_of_cons in Hin as [Heq|Hin]; [discriminate|]).
  by apply elem_of_nil in Hin.
Qed.

Section FallbackResponder.
Context `{Runtime} `{StrSplit}.

(** X28.  [get_fallback_response] never raises and never answers with an empty
    text: it returns one of the twelve templates.  The template is a
    greeting exactly when the lower-cased, stripped text contains one of the
    six greeting words as a substring (so "this" greets, through "hi"), and
    an acknowledgment exactly when it does not and the text has at most
    three words. *)
Theorem get_fallback_response_template draw user_text :
  let user_lower := str_strip (str_lower user_text) in
  let greeted :=
    ∃ g, g ∈ ["hello"; "hi"; "hey"; "good morning"; "good afternoon";
              "good evening"]%string
         ∧ contains g user_lower = true in
  ∃ r, get_fallback_response draw user_text = Some r
       ∧ r ≠ ""%string
       ∧ r ∈ GREETING_RESPONSES ++ ACKNOWLEDGMENT_RESPONSES ++ FALLBACK_RESPONSES
       ∧ (r ∈ GREETING_RESPONSES ↔ greeted)
       ∧ (r ∈ ACKNOWLEDGMENT_RESPONSES
          ↔ ¬ greeted ∧ len (str_split user_text) ≤ 3).
Proof.
  intros user_lower greeted. unfold get_fallback_response. fold user_lower.
  assert (Hg : existsb (λ g, contains g user_lower)
                 ["hello"; "hi"; "hey"; "good morning"; "good afternoon";
                  "good evening"]%string = true ↔ greeted).
  { rewrite existsb_exists. unfold greeted.
    split; intros (g & Hin & Hc); exists g; by rewrite ?list_elem_of_In in *. }
  destruct (existsb _ _) eqn:Ex.
  - destruct (random_choice_elem draw GREETING_RESPONSES) as (r & Hr & Hin); [done|].
    exists r. assert (Hall : r ∈ GREETING_RESPONSES ++ ACKNOWLEDGMENT_RESPONSES
                                  ++ FALLBACK_RESPONSES) by (apply elem_of_app; by left).
    split_and!; [done|by apply templates_nonempty|done| |].
    + split; [intros _; by apply Hg|done].
    + split; [intros Hack; by destruct (proj1 (templates_disjoint r) Hin)|].
      intros [Hno _]. destruct Hno. by apply Hg.
  - assert (Hno : ¬ greeted) by (intros Hyes; apply Hg in Hyes; done).
    case_bool_decide as Hlen.
    + destruct (random_choice_elem draw ACKNOWLEDGMENT_RESPONSES)
        as (r & Hr & Hin); [done|].
      exists r. assert (Hall : r ∈ GREETING_RESPONSES ++ ACKNOWLEDGMENT_RESPONSES
                                    ++ FALLBACK_RESPONSES).
      { apply elem_of_app; right. apply elem_of_app; by left. }
      split_and!; [done|by apply templates_nonempty|done| |done].
      split; [|done]. intros Hgr.
      by destruct (proj1 (templates_disjoint r) Hgr).
    + destruct (random_choice_elem draw FALLBACK_RESPONSES)
        as (r & Hr & Hin); [done|].
      exists r. assert (Hall : r ∈ GREETING_RESPONSES ++ ACKNOWLEDGMENT_RESPONSES
                                    ++ FALLBACK_RESPONSES).
      { apply elem_of_app; right. apply elem_of_app; by right. }
      split_and!; [done|by apply templates_nonempty|done| |].
      * split; [|done]. intros Hgr.
        by destruct (proj1 (templates_disjoint r) Hgr).
      * split; [|by intros [_ ?]]. intros Hack.
        by destruct (proj2 (templates_disjoint r) Hack).
Qed.

End FallbackResponder.
